(** * Draft recommendation engine of hots-draft: scoring, ranking and
      player assignment of [src/app.js] (class [DraftManager])

    The development is a shallow embedding of the JavaScript methods
    [getPlayerHeroWinRateDelta], [getPlayerWinRateDelta],
    [assignHeroesToPlayers], [fillEmptySlots], [calculateHeroScore] and
    [getRecommendations], of the methods that change the draft and the
    players of a side ([assignSingleHero], [assignPlayerToHero], [quickPick],
    [quickBan], [addPlayerRow], [removePlayerRow], [clearTeam]), of the
    recent teams ([saveCurrentTeamToRecent], [loadRecentTeam],
    [deleteSavedTeam]), of the debug table ([getIndividualPlayerScores],
    [generateDebugData]), of the hero cards of a player
    ([displayPlayerTopHeroes]) and of the filter that the endpoint
    [src/api/player/heroes.js] applies to the hero statistics.

    Conventions of the embedding.
    - A JavaScript number that carries a percentage (win rate, delta) is an
      integer of [Z] in fixed point: one percentage point is [pct 1 = 100]
      units, so the catalog value [58.44] is [5844]. Game counts and array
      indices are plain integers.
    - [null] and [undefined] fields are [None]; an object used as a dictionary
      is a [gmap string _]; an array is a [list], read with [!!].
    - A [TypeError] raised by reading a property of [undefined] is the
      constructor [TypeError] of [exc].
    - A method that mutates [this.draft] or [this.playerStats] is a function
      from the state to the new state. A slot index passed to such a method
      is one of the slots of the arrays, as the callers ensure; the
      statements about these methods carry this bound as a hypothesis.
    - An [async] method is embedded for a call that runs to its end before
      another handler touches the team; the answer of [fetch] is an argument. *)

From stdpp Require Import base numbers option list strings gmap sorting.

Local Open Scope Z_scope.

(** ** Numbers *)

(** [pct n] is [n] percentage points in the fixed-point unit. *)
Definition pct (n : Z) : Z := n * 100.
Arguments pct : simpl never.

(** JavaScript [x || d] for an optional number: [undefined] and [0] are falsy. *)
Definition orDefault (x : option Z) (d : Z) : Z :=
  match x with
  | Some v => if v =? 0 then d else v
  | None => d
  end.

(** ** Exceptions *)

Inductive exc (A : Type) : Type :=
  | Ret (a : A)
  | TypeError.
Arguments Ret {A} a.
Arguments TypeError {A}.

Definition bindE {A B} (m : exc A) (k : A -> exc B) : exc B :=
  match m with
  | Ret a => k a
  | TypeError => TypeError
  end.

#[global] Instance exc_bind : MBind exc := fun A B k m => bindE m k.

(** [xs.forEach(...)] whose body may throw, threading the mutated locals. *)
Fixpoint foldE {A S} (f : S -> A -> exc S) (s : S) (xs : list A) : exc S :=
  match xs with
  | [] => Ret s
  | x :: xs' => s' ← f s x; foldE f s' xs'
  end.

(** ** Data model *)

Record Hero := mkHero {
  name : string;
  slug : string;
  new_role : option string
}.

Record MapInfo := mkMap {
  map_name : string;
  map_slug : string
}.

(** One statistics block of the catalog: [global], [maps[m]],
    [matchups[h].enemy] and [matchups[h].ally] all have this shape. *)
Record Stats := mkStats {
  confidence_adjusted_delta : option Z;
  win_rate : option Z
}.

Record Matchup := mkMatchup {
  enemy : option Stats;
  ally : option Stats
}.

Record HeroData := mkHeroData {
  hd_global : option Stats;
  hd_maps : option (gmap string Stats);
  hd_matchups : option (gmap string Matchup)
}.

(** A player's record on one hero in one game type. *)
Record HeroStats := mkHeroStats {
  games_played : option Z;
  hs_win_rate : option Z
}.

Record Player := mkPlayer {
  battletag : string;
  data : option (gmap string (gmap string HeroStats))
}.

Record TeamDraft := mkTeamDraft {
  bans : list (option Hero);
  picks : list (option Hero);
  assignments : list (option nat);
  manualAssignments : list bool
}.

Inductive Team := blue | red.

Definition enemyOf (team : Team) : Team :=
  match team with blue => red | red => blue end.

Record DraftManager := mkDraftManager {
  heroes : list Hero;
  maps : list MapInfo;
  heroesData : gmap string HeroData;
  selectedMap : option string;
  draft_blue : TeamDraft;
  draft_red : TeamDraft;
  playerStats_blue : list (option Player);
  playerStats_red : list (option Player);
  selectedRoles_blue : gset string;
  selectedRoles_red : gset string
}.

Definition draft (st : DraftManager) (team : Team) : TeamDraft :=
  match team with blue => draft_blue st | red => draft_red st end.

Definition playerStats (st : DraftManager) (team : Team) : list (option Player) :=
  match team with blue => playerStats_blue st | red => playerStats_red st end.

Definition selectedRoles (st : DraftManager) (team : Team) : gset string :=
  match team with blue => selectedRoles_blue st | red => selectedRoles_red st end.

(** ** Per-player, per-hero win-rate delta *)

Definition gameTypes : list string := ["Quick Match"; "Storm League"]%string.

(** [Math.max(-5, Math.min(5, delta))] *)
Definition cap5 (delta : Z) : Z := Z.max (pct (-5)) (Z.min (pct 5) delta).

(** Body of the loop [for (const gameType of gameTypes)] of
    [getPlayerHeroWinRateDelta]; the state is [(bestDelta, maxGames)]. *)
Definition bucketStep (d : gmap string (gmap string HeroStats)) (heroName : string)
    (acc : Z * Z) (gameType : string) : Z * Z :=
  let '(bestDelta, maxGames) := acc in
  match d !! gameType with
  | None => acc
  | Some gameTypeData =>
    match gameTypeData !! heroName with
    | None => acc
    | Some heroStats =>
      let games := orDefault (games_played heroStats) 0 in
      if 25 <=? games then
        let winRate := orDefault (hs_win_rate heroStats) (pct 50) in
        let delta := cap5 (winRate - pct 50) in
        if maxGames <? games then (delta, games) else acc
      else acc
    end
  end.

Definition getPlayerHeroWinRateDelta (player : option Player) (heroName : string) : Z :=
  match player with
  | None => 0
  | Some p =>
    match data p with
    | None => 0
    | Some d => fst (foldl (bucketStep d heroName) (0, 0) gameTypes)
    end
  end.

(** ** Which players are free: [getPlayerWinRateDelta] *)

(** [picks[slotIdx] !== null]: an index outside the array reads [undefined],
    which is not [null]. *)
Definition pickNotNull (picks : list (option Hero)) (slotIdx : nat) : bool :=
  match picks !! slotIdx with
  | Some None => false
  | _ => true
  end.

(** The flag computed by [currentAssignments.forEach((assignedPlayerIdx, slotIdx) => ...)]:
    player [i] is referenced by a slot whose pick is not [null]. *)
Definition isAssignedToHero (currentAssignments : list (option nat))
    (picks : list (option Hero)) (i : nat) : bool :=
  existsb (fun '(slotIdx, assignedPlayerIdx) =>
             bool_decide (assignedPlayerIdx = Some i) && pickNotNull picks slotIdx)
          (imap pair currentAssignments).

(** [!player || !player.data] is false. *)
Definition hasData (player : option Player) : bool :=
  match player with
  | Some p => match data p with Some _ => true | None => false end
  | None => false
  end.

(** Body of the loop [for (let i = 0; i < playerData.length; i++)]. *)
Definition playerStep (currentAssignments : list (option nat)) (picks : list (option Hero))
    (heroName : string) (bestDelta : Z) (ip : nat * option Player) : Z :=
  let '(i, player) := ip in
  if negb (hasData player) then bestDelta
  else if isAssignedToHero currentAssignments picks i then bestDelta
  else
    let delta := getPlayerHeroWinRateDelta player heroName in
    if Z.abs bestDelta <? Z.abs delta then delta else bestDelta.

Definition getPlayerWinRateDelta (st : DraftManager) (heroName : string) (team : Team)
    (assignments_arg : option (list (option nat))) : Z :=
  let playerData := playerStats st team in
  match playerData with
  | [] => 0
  | _ =>
    let currentAssignments :=
      match assignments_arg with
      | Some a => a
      | None => assignments (draft st team)
      end in
    let picks := picks (draft st team) in
    foldl (playerStep currentAssignments picks heroName) 0 (imap pair playerData)
  end.

(** ** Assignment of picked heroes to players *)

Definition validPlayersOf (players : list (option Player)) : list (option Player) :=
  List.filter hasData players.

Definition nullSlots : list (option nat) := replicate 5 None.

(** [assignments.some((assignedIdx) => assignedIdx === playerIndex)] *)
Definition alreadyAssigned (assignments : list (option nat)) (playerIndex : nat) : bool :=
  existsb (fun assignedIdx => bool_decide (assignedIdx = Some playerIndex)) assignments.

(** [picks[slotIndex]] is truthy. *)
Definition picked (picks : list (option Hero)) (slotIndex : nat) : option Hero :=
  match picks !! slotIndex with
  | Some (Some h) => Some h
  | _ => None
  end.

(** First pass of [assignHeroesToPlayers]: keep the manual assignments of the
    slots that still hold a hero. The arrays of a team have five entries; a
    read past the end of a shorter array is taken as [null]. *)
Definition firstPass (picks : list (option Hero)) (manual : list bool)
    (currentAssignments : list (option nat)) : list (option nat) :=
  foldl (fun assignments slotIndex =>
           if default false (manual !! slotIndex) && bool_decide (is_Some (picked picks slotIndex))
           then <[slotIndex := default None (currentAssignments !! slotIndex)]> assignments
           else assignments)
        nullSlots (seq 0 5).

(** Inner loop [validPlayers.forEach((player, playerIndex) => ...)] of the
    second pass; the state is [(bestPlayerIndex, bestDelta)], where
    [bestPlayerIndex = None] is the initial [-1]. *)
Definition bestStep (assignments : list (option nat)) (heroName : string)
    (acc : option nat * Z) (ip : nat * option Player) : option nat * Z :=
  let '(playerIndex, player) := ip in
  if alreadyAssigned assignments playerIndex then acc
  else
    let delta := getPlayerHeroWinRateDelta player heroName in
    if snd acc <? delta then (Some playerIndex, delta) else acc.

(** [validPlayers.findIndex((_, idx) => !assignments.some((assignedIdx) => assignedIdx === idx))];
    [None] is the result [-1]. *)
Definition firstAvailable (validPlayers : list (option Player))
    (assignments : list (option nat)) : option nat :=
  List.find (fun idx => negb (alreadyAssigned assignments idx))
            (seq 0 (length validPlayers)).

(** Body of [picks.forEach((hero, slotIndex) => ...)], the second pass.
    [bestDelta] exceeds its initial -999 only after an update of the inner
    loop, which sets [bestPlayerIndex] to a player index. *)
Definition secondStep (validPlayers : list (option Player))
    (assignments : list (option nat)) (ih : nat * option Hero) : list (option nat) :=
  let '(slotIndex, hero) := ih in
  match hero with
  | Some h =>
    if bool_decide (assignments !! slotIndex = Some None) then
      let '(bestPlayerIndex, bestDelta) :=
        foldl (bestStep assignments (name h)) (None, pct (-999)) (imap pair validPlayers) in
      if pct (-999) <? bestDelta then <[slotIndex := bestPlayerIndex]> assignments
      else
        match firstAvailable validPlayers assignments with
        | Some availablePlayerIndex => <[slotIndex := Some availablePlayerIndex]> assignments
        | None => assignments
        end
    else assignments
  | None => assignments
  end.

Definition secondPass (validPlayers : list (option Player)) (picks : list (option Hero))
    (assignments : list (option nat)) : list (option nat) :=
  foldl (secondStep validPlayers) assignments (imap pair picks).

(** Body of the third pass: fill the slots still [null]. *)
Definition thirdStep (validPlayers : list (option Player))
    (assignments : list (option nat)) (slotIndex : nat) : list (option nat) :=
  if bool_decide (assignments !! slotIndex = Some None)
     && bool_decide (slotIndex < length validPlayers)%nat
  then
    match firstAvailable validPlayers assignments with
    | Some availablePlayerIndex => <[slotIndex := Some availablePlayerIndex]> assignments
    | None => <[slotIndex := Some slotIndex]> assignments
    end
  else assignments.

Definition thirdPass (validPlayers : list (option Player))
    (assignments : list (option nat)) : list (option nat) :=
  foldl (thirdStep validPlayers) assignments (seq 0 5).

(** [assignHeroesToPlayers(team)], on the team's players and draft record. *)
Definition assignHeroesToPlayers (players : list (option Player)) (d : TeamDraft) : TeamDraft :=
  let validPlayers := validPlayersOf players in
  match validPlayers with
  | [] =>
    {| bans := bans d; picks := picks d;
       assignments := nullSlots;
       manualAssignments := replicate 5 false |}
  | _ =>
    let a1 := firstPass (picks d) (manualAssignments d) (assignments d) in
    let a2 := secondPass validPlayers (picks d) a1 in
    let a3 := thirdPass validPlayers a2 in
    {| bans := bans d; picks := picks d;
       assignments := a3;
       manualAssignments := manualAssignments d |}
  end.

(** [fillEmptySlots(team)]: the search of the first player that no other slot
    references, over the unfiltered [players] array. *)
Definition firstUnreferenced (players : list (option Player))
    (assignments : list (option nat)) (slotIndex : nat) : option nat :=
  List.find (fun playerIdx =>
               hasData (default None (players !! playerIdx))
               && negb (existsb (fun '(idx, assignedIdx) =>
                                   negb (Nat.eqb idx slotIndex)
                                   && bool_decide (assignedIdx = Some playerIdx))
                                (imap pair assignments)))
            (seq 0 (length players)).

Definition fillStep (players : list (option Player))
    (assignments : list (option nat)) (slotIndex : nat) : list (option nat) :=
  if bool_decide (assignments !! slotIndex = Some None)
     && bool_decide (slotIndex < length players)%nat
  then
    match firstUnreferenced players assignments slotIndex with
    | Some foundPlayerIndex => <[slotIndex := Some foundPlayerIndex]> assignments
    | None =>
      <[slotIndex := if bool_decide (slotIndex < length players)%nat
                     then Some slotIndex else None]> assignments
    end
  else assignments.

Definition fillEmptySlots (players : list (option Player)) (d : TeamDraft) : TeamDraft :=
  match validPlayersOf players with
  | [] => d
  | _ =>
    {| bans := bans d; picks := picks d;
       assignments := foldl (fillStep players) (assignments d) (seq 0 5);
       manualAssignments := manualAssignments d |}
  end.

(** ** Scoring: [calculateHeroScore] *)

Record Breakdown := mkBreakdown {
  bd_global : Z;
  bd_map : Z;
  bd_vsEnemy : Z;
  bd_withAllies : Z;
  bd_playerDelta : Z
}.

Inductive TagType :=
  | tag_map | tag_counter | tag_weakness | tag_synergy | tag_antisynergy | tag_player.

(** The template strings of the tags, kept structured: the label and the
    name (and, for a player, the win rate printed by [toFixed(1)]) it embeds. *)
Inductive TagText :=
  | GoodOn (mapName : string)
  | WeakOn (mapName : string)
  | Counters (heroName : string)
  | CounteredBy (heroName : string)
  | SynergyWith (heroName : string)
  | AntiSynergyWith (heroName : string)
  | PlayerWR (playerName : string) (bestWinRate : Z).

Record Tag := mkTag {
  text : TagText;
  score : Z;
  winRate : option Z;
  type : TagType
}.

Record Score := mkScore {
  total : Z;
  breakdown : option Breakdown;   (* [None] is the empty object [{}] *)
  tags : list Tag;
  expectedWinRate : Z;
  baseWinRate : option Z
}.

(** [Object.values(breakdown)] *)
Definition breakdownValues (b : option Breakdown) : list Z :=
  match b with
  | None => []
  | Some b => [bd_global b; bd_map b; bd_vsEnemy b; bd_withAllies b; bd_playerDelta b]
  end.

(** [getPickedHeroes(team)] *)
Definition getPickedHeroes (st : DraftManager) (team : Team) : list Hero :=
  omap id (picks (draft st team)).

(** [(heroData.global.win_rate || 50)]: reading [win_rate] of a missing
    [global] block throws. *)
Definition globalWinRate (heroData : HeroData) : exc Z :=
  match hd_global heroData with
  | None => TypeError
  | Some g => Ret (orDefault (win_rate g) (pct 50))
  end.

(** A string is truthy when it is not empty. *)
Definition nonEmpty (s : string) : bool := negb (String.eqb s "").

(** Step 2, the map delta and its tag; returns [(breakdown.map, tags)]. *)
Definition mapPart (st : DraftManager) (heroData : HeroData) : exc (Z * list Tag) :=
  match selectedMap st, hd_maps heroData with
  | Some sel, Some hmaps =>
    if nonEmpty sel then
      match List.find (fun m => String.eqb (map_slug m) sel) (maps st) with
      | Some selectedMapData =>
        match hmaps !! map_name selectedMapData with
        | Some mapData =>
          match confidence_adjusted_delta mapData with
          | Some m =>
            if pct 3 <=? Z.abs m then
              g ← globalWinRate heroData;
              Ret (m, [ {| text := if 0 <? m then GoodOn (map_name selectedMapData)
                                   else WeakOn (map_name selectedMapData);
                           score := m;
                           winRate := Some (g + m);
                           type := tag_map |} ])
            else Ret (m, [])
          | None => Ret (0, [])
          end
        | None => Ret (0, [])
        end
      | None => Ret (0, [])
      end
    else Ret (0, [])
  | _, _ => Ret (0, [])
  end.

Inductive Side := asEnemy | asAlly.

Definition sideStats (side : Side) (m : Matchup) : option Stats :=
  match side with asEnemy => enemy m | asAlly => ally m end.

Definition sideTag (side : Side) (other : string) (delta g : Z) : Tag :=
  match side with
  | asEnemy =>
    {| text := if 0 <? delta then Counters other else CounteredBy other;
       score := delta; winRate := Some (g + delta);
       type := if 0 <? delta then tag_counter else tag_weakness |}
  | asAlly =>
    {| text := if 0 <? delta then SynergyWith other else AntiSynergyWith other;
       score := delta; winRate := Some (g + delta);
       type := if 0 <? delta then tag_synergy else tag_antisynergy |}
  end.

(** Body of [enemyPicks.forEach(enemyHero => ...)] (side [asEnemy], step 3)
    and of [ownPicks.forEach(ally => ...)] (side [asAlly], step 4): the state
    is the running sum of the component and the tags pushed so far. *)
Definition matchupStep (side : Side) (heroData : HeroData)
    (matchups : gmap string Matchup) (acc : Z * list Tag) (other : Hero)
    : exc (Z * list Tag) :=
  let '(sum, tgs) := acc in
  match matchups !! name other with
  | Some matchup =>
    match sideStats side matchup with
    | Some s =>
      match confidence_adjusted_delta s with
      | Some delta =>
        if pct 3 <=? Z.abs delta then
          g ← globalWinRate heroData;
          Ret (sum + delta, tgs ++ [sideTag side (name other) delta g])
        else Ret (sum + delta, tgs)
      | None => Ret acc
      end
    | None => Ret acc
    end
  | None => Ret acc
  end.

Definition matchupPart (side : Side) (heroData : HeroData) (others : list Hero)
    : exc (Z * list Tag) :=
  match hd_matchups heroData with
  | Some matchups => foldE (matchupStep side heroData matchups) (0, []) others
  | None => Ret (0, [])
  end.

(** [player.battletag.split('#')[0]] *)
Fixpoint beforeHash (s : string) : string :=
  match s with
  | EmptyString => EmptyString
  | String c s' => if Ascii.eqb c (Ascii.ascii_of_nat 35) then EmptyString else String c (beforeHash s')
  end.

(** The search of the player named by the player tag: inner loop over the
    game types; the state is [(bestPlayer, bestWinRate)]. *)
Definition tagBucketStep (p : Player) (d : gmap string (gmap string HeroStats))
    (heroName : string) (acc : option string * Z) (gameType : string) : option string * Z :=
  match d !! gameType with
  | Some gameTypeData =>
    match gameTypeData !! heroName with
    | Some heroStats =>
      match games_played heroStats with
      | Some games =>
        if 25 <=? games then
          let winRate := orDefault (hs_win_rate heroStats) (pct 50) in
          if Z.abs (snd acc - pct 50) <? Z.abs (winRate - pct 50)
          then (Some (beforeHash (battletag p)), winRate)
          else acc
        else acc
      | None => acc
      end
    | None => acc
    end
  | None => acc
  end.

Definition tagPlayerStep (assignments : list (option nat)) (picks : list (option Hero))
    (heroName : string) (acc : option string * Z) (ip : nat * option Player)
    : option string * Z :=
  let '(i, player) := ip in
  match player with
  | Some p =>
    match data p with
    | Some d =>
      if isAssignedToHero assignments picks i then acc
      else foldl (tagBucketStep p d heroName) acc gameTypes
    | None => acc
    end
  | None => acc
  end.

(** Step 5: the player delta and its tag; returns [(breakdown.playerDelta, tags)]. *)
Definition playerPart (st : DraftManager) (heroName : string) (team : Team)
    : Z * list Tag :=
  let assignments := assignments (draft st team) in
  let playerDelta := getPlayerWinRateDelta st heroName team (Some assignments) in
  if playerDelta =? 0 then (0, [])
  else if pct 1 <=? Z.abs playerDelta then
    let '(bestPlayer, bestWinRate) :=
      foldl (tagPlayerStep assignments (picks (draft st team)) heroName)
            (None, pct 50) (imap pair (playerStats st team)) in
    match bestPlayer with
    | Some n =>
      if nonEmpty n then
        (playerDelta, [ {| text := PlayerWR n bestWinRate; score := playerDelta;
                           winRate := None; type := tag_player |} ])
      else (playerDelta, [])
    | None => (playerDelta, [])
    end
  else (playerDelta, []).

Definition calculateHeroScore (st : DraftManager) (heroName : string) (team : Team)
    : exc Score :=
  match heroesData st !! heroName with
  | None =>
    Ret {| total := 0; breakdown := None; tags := [];
           expectedWinRate := pct 50; baseWinRate := None |}
  | Some heroData =>
    let enemyTeam := enemyOf team in
    let ownPicks := getPickedHeroes st team in
    let enemyPicks := getPickedHeroes st enemyTeam in
    let g := match hd_global heroData with
             | Some gl => default 0 (confidence_adjusted_delta gl)
             | None => 0
             end in
    '(m, mapTags) ← mapPart st heroData;
    '(e, enemyTags) ← matchupPart asEnemy heroData enemyPicks;
    '(a, allyTags) ← matchupPart asAlly heroData ownPicks;
    let '(p, playerTags) := playerPart st heroName team in
    let b := {| bd_global := g; bd_map := m; bd_vsEnemy := e;
                bd_withAllies := a; bd_playerDelta := p |} in
    let totalDelta := foldl Z.add 0 (breakdownValues (Some b)) in
    Ret {| total := totalDelta;
           breakdown := Some b;
           tags := mapTags ++ enemyTags ++ allyTags ++ playerTags;
           expectedWinRate := pct 50 + totalDelta;
           baseWinRate := Some (match hd_global heroData with
                                | Some gl => orDefault (win_rate gl) (pct 50)
                                | None => pct 50
                                end) |}
  end.

(** ** Ranking: [getRecommendations] *)

(** One entry [{ hero, ...score }] of the recommendation list. *)
Record Recommendation := mkRecommendation {
  rec_hero : Hero;
  rec_score : Score
}.

Definition rec_expectedWinRate (r : Recommendation) : Z := expectedWinRate (rec_score r).

(** The slugs added to [unavailableHeroes] by one team. *)
Definition draftedSlugs (d : TeamDraft) : list string :=
  (slug <$> omap id (bans d)) ++ (slug <$> omap id (picks d)).

Definition unavailableHeroes (st : DraftManager) : gset string :=
  list_to_set (draftedSlugs (draft st blue) ++ draftedSlugs (draft st red)).

(** The role filter: [selectedRoles[team].size > 0 && hero.new_role &&
    !selectedRoles[team].has(hero.new_role)]. *)
Definition roleExcluded (st : DraftManager) (team : Team) (hero : Hero) : bool :=
  bool_decide (selectedRoles st team ≠ ∅)
  && match new_role hero with
     | Some r => nonEmpty r && bool_decide (r ∉ selectedRoles st team)
     | None => false
     end.

(** [Object.values(score.breakdown).some(val => val !== 0)] *)
Definition hasScore (s : Score) : bool :=
  existsb (fun val => negb (val =? 0)) (breakdownValues (breakdown s)).

(** Body of [this.heroes.forEach(hero => ...)]. *)
Definition recommendStep (st : DraftManager) (team : Team)
    (recommendations : list Recommendation) (hero : Hero) : exc (list Recommendation) :=
  if bool_decide (slug hero ∈ unavailableHeroes st) then Ret recommendations
  else if roleExcluded st team hero then Ret recommendations
  else
    sc ← calculateHeroScore st (name hero) team;
    if hasScore sc
    then Ret (recommendations ++ [ {| rec_hero := hero; rec_score := sc |} ])
    else Ret recommendations.

(** [recommendations.sort((a, b) => b.expectedWinRate - a.expectedWinRate)]:
    [Array.prototype.sort] is stable, and the comparator is a total preorder,
    so the result is the stable arrangement by decreasing [expectedWinRate];
    it is computed here by insertion. *)
Fixpoint insertDesc (r : Recommendation) (l : list Recommendation) : list Recommendation :=
  match l with
  | [] => [r]
  | x :: l' =>
    if rec_expectedWinRate r <? rec_expectedWinRate x
    then x :: insertDesc r l'
    else r :: l
  end.

Definition sortDesc (l : list Recommendation) : list Recommendation :=
  foldr insertDesc [] l.

Definition truthyMap (st : DraftManager) : bool :=
  match selectedMap st with
  | Some s => nonEmpty s
  | None => false
  end.

Definition getRecommendations (st : DraftManager) (team : Team) : exc (list Recommendation) :=
  let enemyTeam := enemyOf team in
  let hasMap := truthyMap st in
  let hasOwnPicks := negb (Nat.eqb (length (getPickedHeroes st team)) 0) in
  let hasEnemyPicks := negb (Nat.eqb (length (getPickedHeroes st enemyTeam)) 0) in
  if negb hasMap && negb hasOwnPicks && negb hasEnemyPicks then Ret []
  else
    recommendations ← foldE (recommendStep st team) [] (heroes st);
    Ret (sortDesc recommendations).

(** ** Draft mutations *)

(** [arr.findIndex((x, idx) => f(idx, x))]; [None] is the result [-1]. *)
Definition findIndex {A} (f : nat -> A -> bool) (l : list A) : option nat :=
  fst <$> List.find (fun ix => f (fst ix) (snd ix)) (imap pair l).

(** [slot === null] *)
Definition isNull {A} (slot : option A) : bool :=
  match slot with None => true | Some _ => false end.

Definition setDraft (st : DraftManager) (team : Team) (d : TeamDraft) : DraftManager :=
  match team with
  | blue =>
    {| heroes := heroes st; maps := maps st; heroesData := heroesData st;
       selectedMap := selectedMap st; draft_blue := d; draft_red := draft_red st;
       playerStats_blue := playerStats_blue st; playerStats_red := playerStats_red st;
       selectedRoles_blue := selectedRoles_blue st; selectedRoles_red := selectedRoles_red st |}
  | red =>
    {| heroes := heroes st; maps := maps st; heroesData := heroesData st;
       selectedMap := selectedMap st; draft_blue := draft_blue st; draft_red := d;
       playerStats_blue := playerStats_blue st; playerStats_red := playerStats_red st;
       selectedRoles_blue := selectedRoles_blue st; selectedRoles_red := selectedRoles_red st |}
  end.

Definition setPlayerStats (st : DraftManager) (team : Team) (players : list (option Player))
    : DraftManager :=
  match team with
  | blue =>
    {| heroes := heroes st; maps := maps st; heroesData := heroesData st;
       selectedMap := selectedMap st; draft_blue := draft_blue st; draft_red := draft_red st;
       playerStats_blue := players; playerStats_red := playerStats_red st;
       selectedRoles_blue := selectedRoles_blue st; selectedRoles_red := selectedRoles_red st |}
  | red =>
    {| heroes := heroes st; maps := maps st; heroesData := heroesData st;
       selectedMap := selectedMap st; draft_blue := draft_blue st; draft_red := draft_red st;
       playerStats_blue := playerStats_blue st; playerStats_red := players;
       selectedRoles_blue := selectedRoles_blue st; selectedRoles_red := selectedRoles_red st |}
  end.

(** *** [assignSingleHero] *)

(** [assignments.some((assignedIdx, idx) => idx !== slotIndex &&
    assignedIdx === playerIndex && picks[idx] !== null)]: the player is bound
    to the hero of another slot. *)
Definition boundElsewhere (assignments : list (option nat)) (picks : list (option Hero))
    (slotIndex playerIndex : nat) : bool :=
  existsb (fun '(idx, assignedIdx) =>
             negb (Nat.eqb idx slotIndex)
             && bool_decide (assignedIdx = Some playerIndex)
             && pickNotNull picks idx)
          (imap pair assignments).

(** Body of [validPlayers.forEach((player, playerIndex) => ...)] of
    [assignSingleHero]; the state is [(bestPlayerIndex, bestDelta)]. *)
Definition singleStep (assignments : list (option nat)) (picks : list (option Hero))
    (slotIndex : nat) (heroName : string)
    (acc : option nat * Z) (ip : nat * option Player) : option nat * Z :=
  let '(playerIndex, player) := ip in
  if boundElsewhere assignments picks slotIndex playerIndex then acc
  else
    let delta := getPlayerHeroWinRateDelta player heroName in
    if snd acc <? delta then (Some playerIndex, delta) else acc.

(** The assignment with swap that both branches of [assignSingleHero] end
    with: when the chosen player sits in another slot, that slot takes the
    previous player of [slotIndex]. [slotIndex] is one of the five slots of
    the arrays; the read of a missing entry is taken as [null]. *)
Definition assignWithSwap (assignments : list (option nat)) (slotIndex playerIndex : nat)
    : list (option nat) :=
  let currentSlotOfPlayer :=
    findIndex (fun idx assignedIdx =>
                 negb (Nat.eqb idx slotIndex) && bool_decide (assignedIdx = Some playerIndex))
              assignments in
  let swapped :=
    match currentSlotOfPlayer with
    | Some c =>
      let playerInCurrentSlot := default None (assignments !! slotIndex) in
      <[c := playerInCurrentSlot]> assignments
    | None => assignments
    end in
  <[slotIndex := Some playerIndex]> swapped.

(** [validPlayers.findIndex((_, idx) => !assignments.some(...))] of the
    fallback branch. *)
Definition firstNotBound (validPlayers : list (option Player))
    (assignments : list (option nat)) (picks : list (option Hero)) (slotIndex : nat)
    : option nat :=
  List.find (fun idx => negb (boundElsewhere assignments picks slotIndex idx))
            (seq 0 (length validPlayers)).

(** [assignSingleHero(team, slotIndex, hero)], on the team's players and
    draft record. [bestDelta] exceeds -999 only with a [bestPlayerIndex]. *)
Definition assignSingleHero (players : list (option Player)) (d : TeamDraft)
    (slotIndex : nat) (hero : Hero) : TeamDraft :=
  let validPlayers := validPlayersOf players in
  match validPlayers with
  | [] => d
  | _ =>
    let assignments := assignments d in
    let '(bestPlayerIndex, bestDelta) :=
      foldl (singleStep assignments (picks d) slotIndex (name hero))
            (None, pct (-999)) (imap pair validPlayers) in
    let assignments' :=
      if pct (-999) <? bestDelta then
        match bestPlayerIndex with
        | Some p => assignWithSwap assignments slotIndex p
        | None => assignments
        end
      else
        match firstNotBound validPlayers assignments (picks d) slotIndex with
        | Some availablePlayerIndex => assignWithSwap assignments slotIndex availablePlayerIndex
        | None => assignments
        end in
    {| bans := bans d; picks := picks d;
       assignments := assignments';
       manualAssignments := manualAssignments d |}
  end.

(** *** [assignPlayerToHero] *)

(** Body of [assignments.forEach((assignedIndex, pickIndex) => ...)]: the
    other slots of the player are unassigned and lose their manual flag. *)
Definition unassignStep (slotIndex playerIndex : nat)
    (am : list (option nat) * list bool) (ix : nat * option nat)
    : list (option nat) * list bool :=
  let '(pickIndex, assignedIndex) := ix in
  if negb (Nat.eqb pickIndex slotIndex) && bool_decide (assignedIndex = Some playerIndex)
  then (<[pickIndex := None]> (fst am), <[pickIndex := false]> (snd am))
  else am.

(** [assignPlayerToHero(team, slotIndex, playerIndex)]; [slotIndex] is one of
    the five slots. *)
Definition assignPlayerToHero (d : TeamDraft) (slotIndex : nat) (playerIndex : option nat)
    : TeamDraft :=
  let '(a, m) :=
    match playerIndex with
    | Some p =>
      foldl (unassignStep slotIndex p) (assignments d, manualAssignments d)
            (imap pair (assignments d))
    | None => (assignments d, manualAssignments d)
    end in
  {| bans := bans d; picks := picks d;
     assignments := <[slotIndex := playerIndex]> a;
     manualAssignments := <[slotIndex := true]> m |}.

(** *** [quickBan] and [quickPick] *)

(** [quickBan(hero, team)]: the first [null] ban slot takes the hero; with no
    such slot the draft is left as it is (an alert is shown). *)
Definition quickBan (st : DraftManager) (hero : Hero) (team : Team) : DraftManager :=
  let d := draft st team in
  match findIndex (fun _ slot => isNull slot) (bans d) with
  | Some emptySlotIndex =>
    setDraft st team
      {| bans := <[emptySlotIndex := Some hero]> (bans d); picks := picks d;
         assignments := assignments d; manualAssignments := manualAssignments d |}
  | None => st
  end.

(** [quickPick(hero, team)] *)
Definition quickPick (st : DraftManager) (hero : Hero) (team : Team) : DraftManager :=
  let d := draft st team in
  match findIndex (fun _ slot => isNull slot) (picks d) with
  | Some emptySlotIndex =>
    let d1 := {| bans := bans d; picks := <[emptySlotIndex := Some hero]> (picks d);
                 assignments := assignments d; manualAssignments := manualAssignments d |} in
    let d2 := if negb (default false (manualAssignments d !! emptySlotIndex))
              then assignSingleHero (playerStats st team) d1 emptySlotIndex hero
              else d1 in
    setDraft st team (fillEmptySlots (playerStats st team) d2)
  | None => st
  end.

(** *** Players *)

(** [p && p.battletag === battletag] *)
Definition hasBattletag (tag : string) (p : option Player) : bool :=
  match p with
  | Some p => String.eqb (battletag p) tag
  | None => false
  end.

(** Body of the loop of [removePlayerRow] that clears the assignments to the
    removed player. *)
Definition clearStep (index : nat)
    (am : list (option nat) * list bool) (ix : nat * option nat)
    : list (option nat) * list bool :=
  let '(pickIndex, assignedIndex) := ix in
  if bool_decide (assignedIndex = Some index)
  then (<[pickIndex := None]> (fst am), <[pickIndex := false]> (snd am))
  else am.

(** [removePlayerRow(team, battletag)], the part that changes the state. *)
Definition removePlayerRow (st : DraftManager) (team : Team) (battletag : string)
    : DraftManager :=
  match findIndex (fun _ p => hasBattletag battletag p) (playerStats st team) with
  | Some index =>
    let players := <[index := None]> (playerStats st team) in
    let d := draft st team in
    let '(a, m) :=
      foldl (clearStep index) (assignments d, manualAssignments d)
            (imap pair (assignments d)) in
    let d1 := {| bans := bans d; picks := picks d;
                 assignments := a; manualAssignments := m |} in
    setDraft (setPlayerStats st team players) team (fillEmptySlots players d1)
  | None => st
  end.

(** The store of a fetched player: the first free entry, or a new one. *)
Definition storePlayer (players : list (option Player)) (p : Player) : list (option Player) :=
  match findIndex (fun _ q => isNull q) players with
  | Some slot => <[slot := Some p]> players
  | None => players ++ [Some p]
  end.

(** [addPlayerRow(team, battletag)], the part that changes the state, for a
    fetch that resolves before any other event is handled: [response] is the
    parsed body, or [None] when the fetch fails. *)
Definition addPlayerRow (st : DraftManager) (team : Team) (battletag : string)
    (response : option (gmap string (gmap string HeroStats))) : DraftManager :=
  let existingPlayers := playerStats st team in
  if existsb (hasBattletag battletag) existingPlayers then st
  else if (5 <=? length (List.filter (fun p => negb (isNull p)) existingPlayers))%nat then st
  else
    match response with
    | Some data =>
      let players := storePlayer existingPlayers {| battletag := battletag; data := Some data |} in
      setDraft (setPlayerStats st team players) team
               (fillEmptySlots players (draft st team))
    | None => st
    end.


(** *** Recent teams *)

Record SavedTeam := mkSavedTeam {
  team_name : string;
  battletags : list string;
  timestamp : Z
}.

(** [players.filter(p => p).map(p => p.battletag)] *)
Definition presentBattletags (players : list (option Player)) : list string :=
  battletag <$> omap id players.

Section RecentTeams.
(** The string methods [trim] and [toLowerCase] of the platform. *)
Variables (trim toLowerCase : string -> string).

(** [saveCurrentTeamToRecent(team, teamName)] on the list of recent teams:
    [overwrite] is the answer to the confirmation asked when the name is
    taken, [now] the value of [Date.now()]. *)
Definition saveCurrentTeamToRecent (recentTeams : list SavedTeam)
    (players : list (option Player)) (teamName : string) (overwrite : bool) (now : Z)
    : list SavedTeam :=
  if Nat.eqb (length (omap id players)) 0 then recentTeams
  else if String.eqb teamName EmptyString || String.eqb (trim teamName) EmptyString
  then recentTeams
  else
    let trimmedName := trim teamName in
    let existingIndex :=
      findIndex (fun _ t => String.eqb (toLowerCase (team_name t)) (toLowerCase trimmedName))
                recentTeams in
    let saved := {| team_name := trimmedName;
                    battletags := presentBattletags players;
                    timestamp := now |} in
    match existingIndex with
    | Some i =>
      if overwrite then take 20 (saved :: delete i recentTeams) else recentTeams
    | None => take 20 (saved :: recentTeams)
    end.
End RecentTeams.

(** [deleteSavedTeam(index)], once the deletion is confirmed. *)
Definition deleteSavedTeam (recentTeams : list SavedTeam) (index : nat) : list SavedTeam :=
  delete index recentTeams.


(** ** The debug table: [generateDebugData] *)

Record DebugRow := mkDebugRow {
  dr_hero : Hero;
  dr_breakdown : option Breakdown;
  dr_total : Z;
  dr_expectedWinRate : Z;
  dr_playerScores : list (string * Z);
  dr_unavailable : bool
}.

(** [getIndividualPlayerScores(heroName, team)]: one [(battletag, score)] per
    player with data. *)
Definition getIndividualPlayerScores (st : DraftManager) (heroName : string) (team : Team)
    : list (string * Z) :=
  foldl (fun playerDeltas player =>
           match player with
           | Some p =>
             if hasData player
             then playerDeltas ++ [(battletag p, getPlayerHeroWinRateDelta player heroName)]
             else playerDeltas
           | None => playerDeltas
           end)
        [] (playerStats st team).

(** Body of [this.heroes.forEach(hero => ...)] of [generateDebugData]. *)
Definition debugStep (st : DraftManager) (team : Team)
    (debugData : list DebugRow) (hero : Hero) : exc (list DebugRow) :=
  scoreData ← calculateHeroScore st (name hero) team;
  Ret (debugData ++
       [ {| dr_hero := hero;
            dr_breakdown := breakdown scoreData;
            dr_total := total scoreData;
            dr_expectedWinRate := expectedWinRate scoreData;
            dr_playerScores := getIndividualPlayerScores st (name hero) team;
            dr_unavailable := bool_decide (slug hero ∈ unavailableHeroes st) |} ]).

(** [debugData.sort((a, b) => b.expectedWinRate - a.expectedWinRate)], the
    stable arrangement by decreasing [expectedWinRate], computed by insertion. *)
Fixpoint insertRow (r : DebugRow) (l : list DebugRow) : list DebugRow :=
  match l with
  | [] => [r]
  | x :: l' =>
    if dr_expectedWinRate r <? dr_expectedWinRate x
    then x :: insertRow r l'
    else r :: l
  end.

Definition sortRows (l : list DebugRow) : list DebugRow := foldr insertRow [] l.

Definition generateDebugData (st : DraftManager) (team : Team) : exc (list DebugRow) :=
  debugData ← foldE (debugStep st team) [] (heroes st);
  Ret (sortRows debugData).

(** ** The hero cards of a player: [displayPlayerTopHeroes] *)

Record HeroCard := mkHeroCard {
  card_winRate : Z;
  card_games : option Z;
  card_delta : Z;
  card_gameType : string
}.

(** The entry that [processGameType] builds from the statistics of a hero. *)
Definition cardOf (stats : HeroStats) (gameTypeName : string) : HeroCard :=
  let winRate := orDefault (hs_win_rate stats) (pct 50) in
  {| card_winRate := winRate;
     card_games := games_played stats;
     card_delta := cap5 (winRate - pct 50);
     card_gameType := gameTypeName |}.

(** [stats.games_played > existing.games]; a comparison with [undefined] is
    false. *)
Definition moreGames (games existing : option Z) : bool :=
  match games, existing with
  | Some g, Some e => e <? g
  | _, _ => false
  end.

(** [processGameType(gameTypeData, gameTypeName)] on the map of cards: each
    hero of the bucket sets its own key, so the loop over the entries is the
    key-wise merge of the bucket into the map. *)
Definition processGameType (heroMap : gmap string HeroCard)
    (gameTypeData : gmap string HeroStats) (gameTypeName : string) : gmap string HeroCard :=
  merge (fun existing stats =>
           match stats, existing with
           | Some s, Some e =>
             if moreGames (games_played s) (card_games e)
             then Some (cardOf s gameTypeName) else Some e
           | Some s, None => Some (cardOf s gameTypeName)
           | None, _ => existing
           end)
        heroMap gameTypeData.

(** The map of cards of [displayPlayerTopHeroes] and
    [displayPlayerTopHeroesInline], before the selection of the cards shown. *)
Definition heroMapOf (playerData : gmap string (gmap string HeroStats)) : gmap string HeroCard :=
  let quickMatch := default ∅ (playerData !! "Quick Match"%string) in
  let stormLeague := default ∅ (playerData !! "Storm League"%string) in
  processGameType (processGameType ∅ quickMatch "QM") stormLeague "SL".

(** [h.games >= 25], the filter of the cards with enough games. *)
Definition hasMinGames (c : HeroCard) : bool :=
  match card_games c with
  | Some g => 25 <=? g
  | None => false
  end.

(** ** The player endpoint: the filter of [api/player/heroes.js] *)

Definition allowedGameTypes : list string := ["Quick Match"; "Storm League"]%string.

(** [stats.games_played && stats.games_played >= 10] *)
Definition keepsHero (stats : HeroStats) : bool :=
  match games_played stats with
  | Some g => negb (g =? 0) && (10 <=? g)
  | None => false
  end.

(** Body of [for (const gameType of allowedGameTypes)]. *)
Definition filterStep (heroData filteredHeroData : gmap string (gmap string HeroStats))
    (gameType : string) : gmap string (gmap string HeroStats) :=
  match heroData !! gameType with
  | Some bucket =>
    let filteredHeroes := filter (fun kv => keepsHero (snd kv) = true) bucket in
    if decide (filteredHeroes = ∅) then filteredHeroData
    else <[gameType := filteredHeroes]> filteredHeroData
  | None => filteredHeroData
  end.

(** The hero statistics that the endpoint returns for the answer [heroData]
    of the upstream service. *)
Definition filterHeroData (heroData : gmap string (gmap string HeroStats))
    : gmap string (gmap string HeroStats) :=
  foldl (filterStep heroData) ∅ allowedGameTypes.

(** ** Notions used by the statements *)

(** Player [i] is assigned: some assignment slot references it and the pick
    of that slot is not [null]. *)
Definition assignedToPick (d : TeamDraft) (i : nat) : Prop :=
  exists slotIdx, assignments d !! slotIdx = Some (Some i) /\ picks d !! slotIdx <> Some None.

(** Player [i] of the side is unassigned: the entry [i] of the side's players
    holds a player with data, and that player is not assigned. *)
Definition freePlayer (st : DraftManager) (team : Team) (i : nat) (player : option Player) : Prop :=
  playerStats st team !! i = Some player
  /\ hasData player = true
  /\ ~ assignedToPick (draft st team) i.

(** The recorded delta of the pair (scored hero, [other]) on one side of the
    matchup table, if any. *)
Definition matchupDelta (side : Side) (heroData : HeroData) (other : Hero) : option Z :=
  matchups ← hd_matchups heroData;
  matchup ← matchups !! name other;
  s ← sideStats side matchup;
  confidence_adjusted_delta s.

(** The player indices held by the non-null entries of an assignments array. *)
Definition referenced (assignments : list (option nat)) : list nat := omap id assignments.

(** The heroes in the ban and pick slots of both sides. *)
Definition draftedHeroes (st : DraftManager) : list Hero :=
  omap id (bans (draft st blue)) ++ omap id (picks (draft st blue))
  ++ omap id (bans (draft st red)) ++ omap id (picks (draft st red)).

(** Every record of the catalog has a [global] block. *)
Definition catalogHasGlobal (st : DraftManager) : Prop :=
  forall h heroData, heroesData st !! h = Some heroData -> is_Some (hd_global heroData).

(** The record of one game-type bucket that passes the 25-game threshold:
    its game count and the delta it yields. *)
Definition qualifying (d : gmap string (gmap string HeroStats)) (heroName gameType : string)
    : option (Z * Z) :=
  gameTypeData ← d !! gameType;
  heroStats ← gameTypeData !! heroName;
  let games := orDefault (games_played heroStats) 0 in
  if 25 <=? games
  then Some (games, cap5 (orDefault (hs_win_rate heroStats) (pct 50) - pct 50))
  else None.

(** The hero's global win rate as the tags use it, 50 when it is not recorded. *)
Definition baseRate (heroData : HeroData) : Z :=
  match hd_global heroData with
  | Some gl => orDefault (win_rate gl) (pct 50)
  | None => pct 50
  end.

(** The sum of the recorded deltas of the pairs (scored hero, [other]) over a
    list of heroes, an unrecorded pair counting for 0. *)
Definition sumDeltas (side : Side) (heroData : HeroData) (others : list Hero) : Z :=
  foldr (fun other acc => default 0 (matchupDelta side heroData other) + acc) 0 others.

(** The tags of the pairs whose recorded delta reaches 3 points. *)
Definition matchupTagsOf (side : Side) (heroData : HeroData) (others : list Hero) : list Tag :=
  flat_map (fun other =>
              match matchupDelta side heroData other with
              | Some delta =>
                if pct 3 <=? Z.abs delta
                then [sideTag side (name other) delta (baseRate heroData)]
                else []
              | None => []
              end) others.

(** The selected map, when the hero has a delta recorded on it. *)
Definition selectedMapDelta (st : DraftManager) (heroData : HeroData) : option (MapInfo * Z) :=
  sel ← selectedMap st;
  hmaps ← hd_maps heroData;
  if nonEmpty sel then
    selectedMapData ← List.find (fun m => String.eqb (map_slug m) sel) (maps st);
    mapData ← hmaps !! map_name selectedMapData;
    delta ← confidence_adjusted_delta mapData;
    Some (selectedMapData, delta)
  else None.




(** The tag pushed for the player delta [p]. *)
Definition playerTagOf (n : string) (w p : Z) : Tag :=
  {| text := PlayerWR n w; score := p; winRate := None; type := tag_player |}.

(** Player [p] is bound to the hero of a slot other than [s]: such a slot
    references the player and its pick is not [null]. *)
Definition boundToOtherHero (d : TeamDraft) (s p : nat) : Prop :=
  exists idx, idx <> s /\ assignments d !! idx = Some (Some p)
              /\ picks d !! idx <> Some None.

(** From slot [n] on, every entry of the array is [null]. *)
Definition nullFrom (n : nat) (a : list (option nat)) : Prop :=
  forall s p, (n <= s)%nat -> a !! s <> Some (Some p).

(** Decreasing [expectedWinRate]: the order of the recommendation list. *)
Definition descending (a b : Recommendation) : Prop :=
  rec_expectedWinRate b <= rec_expectedWinRate a.

(** What [recommendStep] requires of a hero before it pushes its entry. *)
Definition eligible (st : DraftManager) (team : Team) (r : Recommendation) : Prop :=
  (slug (rec_hero r) ∉ unavailableHeroes st)
  /\ roleExcluded st team (rec_hero r) = false
  /\ calculateHeroScore st (name (rec_hero r)) team = Ret (rec_score r)
  /\ hasScore (rec_score r) = true.

(** Decreasing [expectedWinRate]: the order of the debug table. *)
Definition rowsDescending (a b : DebugRow) : Prop :=
  dr_expectedWinRate b <= dr_expectedWinRate a.

(** The row of the debug table carries the score of its hero, the scores of
    the players for it, and the flag of the heroes in a ban or pick slot. *)
Definition rowOf (st : DraftManager) (team : Team) (row : DebugRow) : Prop :=
  exists sc, calculateHeroScore st (name (dr_hero row)) team = Ret sc
    /\ dr_breakdown row = breakdown sc
    /\ dr_total row = total sc
    /\ dr_expectedWinRate row = expectedWinRate sc
    /\ dr_playerScores row = getIndividualPlayerScores st (name (dr_hero row)) team
    /\ (dr_unavailable row = true <-> slug (dr_hero row) ∈ unavailableHeroes st).

(** ** Concrete drafts *)

Definition emptyTeam : TeamDraft :=
  {| bans := replicate 3 None; picks := replicate 5 None;
     assignments := nullSlots; manualAssignments := replicate 5 false |}.

Definition heroA : Hero := mkHero "A" "a" None.
Definition heroB : Hero := mkHero "B" "b" None.
Definition heroC : Hero := mkHero "C" "c" None.
Definition heroZ : Hero := mkHero "Z" "z" None.
Definition mapM : MapInfo := mkMap "M" "m".

Definition noStats : gmap string (gmap string HeroStats) := ∅.
Definition alice : Player := {| battletag := "alice#1"; data := Some noStats |}.
Definition bob : Player := {| battletag := "bob#2"; data := Some noStats |}.

(** Thirty Quick Match games on hero A, none of them won. *)
Definition zeroWins : Player :=
  {| battletag := "p#1";
     data := Some {[ "Quick Match"%string := {[ "A"%string := mkHeroStats (Some 30) (Some 0) ]} ]} |}.

(** Thirty Quick Match games on hero A at a 60% win rate. *)
Definition fan : Player :=
  {| battletag := "fan#1";
     data := Some {[ "Quick Match"%string := {[ "A"%string := mkHeroStats (Some 30) (Some 6000) ]} ]} |}.

Definition mkState (hs : list Hero) (cat : gmap string HeroData) (sel : option string)
    (b r : TeamDraft) (pb : list (option Player)) : DraftManager :=
  {| heroes := hs; maps := [mapM]; heroesData := cat; selectedMap := sel;
     draft_blue := b; draft_red := r; playerStats_blue := pb; playerStats_red := [];
     selectedRoles_blue := ∅; selectedRoles_red := ∅ |}.

(** A catalog record without [global], with a +4 delta on map M. *)
Definition noGlobal : HeroData :=
  {| hd_global := None;
     hd_maps := Some {[ "M"%string := mkStats (Some 400) None ]};
     hd_matchups := None |}.

Definition stNoGlobal : DraftManager :=
  mkState [heroA] {[ "A"%string := noGlobal ]} (Some "m"%string) emptyTeam emptyTeam [].


(** A record with an as-ally entry for the hero itself. *)
Definition selfAlly : HeroData :=
  {| hd_global := Some (mkStats (Some 0) (Some 5000));
     hd_maps := None;
     hd_matchups := Some {[ "A"%string := mkMatchup None (Some (mkStats (Some 400) None)) ]} |}.

Definition teamWithA : TeamDraft :=
  {| bans := replicate 3 None; picks := [Some heroA; None; None; None; None];
     assignments := nullSlots; manualAssignments := replicate 5 false |}.

Definition stSelfAlly : DraftManager :=
  mkState [heroA] {[ "A"%string := selfAlly ]} None teamWithA emptyTeam [].

(** A record whose only signal is a +4 global delta. *)
Definition strong : HeroData :=
  {| hd_global := Some (mkStats (Some 400) (Some 5400)); hd_maps := None; hd_matchups := None |}.

Definition stTie : DraftManager :=
  mkState [heroZ; heroA] {[ "A"%string := strong; "Z"%string := strong ]}
          (Some "m"%string) emptyTeam emptyTeam [].

(** Hero A has a record, and the side's only player is a fan of A. *)
Definition stFan : DraftManager :=
  mkState [heroA] {[ "A"%string := strong ]} (Some "m"%string) emptyTeam emptyTeam [Some fan].

(** Hero B has a record with no signal at all; map M is selected. *)
Definition flat : HeroData :=
  {| hd_global := Some (mkStats (Some 0) (Some 5000)); hd_maps := None; hd_matchups := None |}.

Definition stFlat : DraftManager :=
  mkState [heroA; heroB; heroC] {[ "A"%string := strong; "B"%string := flat ]}
          (Some "m"%string) emptyTeam emptyTeam [].

(** Hero B is banned by red, hero C picked by blue. *)
Definition stDrafted : DraftManager :=
  mkState [heroA; heroB; heroC] {[ "A"%string := strong; "B"%string := strong; "C"%string := strong ]}
          None
          {| bans := replicate 3 None; picks := [Some heroC; None; None; None; None];
             assignments := nullSlots; manualAssignments := replicate 5 false |}
          {| bans := [Some heroB; None; None]; picks := replicate 5 None;
             assignments := nullSlots; manualAssignments := replicate 5 false |}
          [].

(** Two players, heroes picked in the slots 2 and 3 only. *)
Definition lateSlots : TeamDraft :=
  {| bans := replicate 3 None; picks := [None; None; Some heroA; Some heroB; None];
     assignments := nullSlots; manualAssignments := replicate 5 false |}.

(** Two players, heroes picked in the slots 0 and 1. *)
Definition leadingSlots : TeamDraft :=
  {| bans := replicate 3 None; picks := [Some heroA; Some heroB; None; None; None];
     assignments := nullSlots; manualAssignments := replicate 5 false |}.

(** Three picks; slot 1 was manually set to "-- Assign --" ([null]) and slot 2
    manually given to player 0. *)
Definition manualNull : TeamDraft :=
  {| bans := replicate 3 None; picks := [Some heroA; Some heroB; Some heroC; None; None];
     assignments := [None; None; Some 0%nat; None; None];
     manualAssignments := [false; true; true; false; false] |}.

(** One pick, manually given to player 1. *)
Definition manualSet : TeamDraft :=
  {| bans := replicate 3 None; picks := [Some heroA; None; None; None; None];
     assignments := [Some 1%nat; None; None; None; None];
     manualAssignments := [true; false; false; false; false] |}.

(** Twenty-four Quick Match games on hero A at a 90% win rate. *)
Definition casual : Player :=
  {| battletag := "casual#7";
     data := Some {[ "Quick Match"%string := {[ "A"%string := mkHeroStats (Some 24) (Some 9000) ]} ]} |}.

(** Forty ranked games on hero A at 45%, thirty Quick Match games at 60%. *)
Definition ranked : gmap string (gmap string HeroStats) :=
  {[ "Quick Match"%string := {[ "A"%string := mkHeroStats (Some 30) (Some 6000) ]};
     "Storm League"%string := {[ "A"%string := mkHeroStats (Some 40) (Some 4500) ]} ]}.

Definition veteran : Player := {| battletag := "vet#3"; data := Some ranked |}.

(** Hero A with a +2 synergy with B, a +3 synergy with C, and a +2 edge over
    each of them as enemies. *)
Definition paired : HeroData :=
  {| hd_global := Some (mkStats (Some 100) (Some 5100));
     hd_maps := None;
     hd_matchups :=
       Some {[ "B"%string := mkMatchup (Some (mkStats (Some 200) None))
                                       (Some (mkStats (Some 200) None));
               "C"%string := mkMatchup (Some (mkStats (Some 200) None))
                                       (Some (mkStats (Some 300) None)) ]} |}.

Definition teamWithBC : TeamDraft :=
  {| bans := replicate 3 None; picks := [Some heroB; Some heroC; None; None; None];
     assignments := nullSlots; manualAssignments := replicate 5 false |}.

(** B and C are picked by blue. *)
Definition stAllies : DraftManager :=
  mkState [heroA; heroB; heroC] {[ "A"%string := paired ]} None teamWithBC emptyTeam [].

(** B and C are picked by red. *)
Definition stEnemies : DraftManager :=
  mkState [heroA; heroB; heroC] {[ "A"%string := paired ]} None emptyTeam teamWithBC [].

(** Nothing drafted, no map. *)
Definition stEmpty : DraftManager :=
  mkState [heroA; heroB; heroC] {[ "A"%string := strong ]} None emptyTeam emptyTeam [].

(** Two picks, both flagged manual and both given to player 0. *)
Definition manualTwice : TeamDraft :=
  {| bans := replicate 3 None; picks := [Some heroA; Some heroB; None; None; None];
     assignments := [Some 0%nat; Some 0%nat; None; None; None];
     manualAssignments := [true; true; false; false; false] |}.

(** Hero A was just picked in slot 0; players 0 and 1 sit in the slots 0 and 1. *)
Definition seated : TeamDraft :=
  {| bans := replicate 3 None; picks := [Some heroA; None; None; None; None];
     assignments := [Some 0%nat; Some 1%nat; None; None; None];
     manualAssignments := replicate 5 false |}.

(** Hero A is held by player 1 in slot 0; player 0 sits in the empty slot 1. *)
Definition heldByFan : TeamDraft :=
  {| bans := replicate 3 None; picks := [Some heroA; None; None; None; None];
     assignments := [Some 1%nat; Some 0%nat; None; None; None];
     manualAssignments := replicate 5 false |}.

(** Blue holds hero A in slot 0, with the players of [heldByFan]. *)
Definition stHeld : DraftManager :=
  mkState [heroA; heroB; heroC] {[ "A"%string := strong; "B"%string := strong ]} None
          heldByFan emptyTeam [Some alice; Some fan].

(** ** Proof steps used more than once *)


(** Case analysis on every condition of a conditional the goal still shows. *)
Ltac split_conditions :=
  repeat match goal with
         | |- context [if ?c then _ else _] => destruct c
         end.

(** * Per-player, per-hero delta *)

Lemma cap5_range delta : pct (-5) <= cap5 delta <= pct 5.
Proof. unfold cap5, pct. lia. Qed.

Lemma cap5_inside delta : pct (-5) <= delta <= pct 5 -> cap5 delta = delta.
Proof. unfold cap5, pct. lia. Qed.


Lemma bucketStep_qualifying d h acc gt :
  bucketStep d h acc gt =
  match qualifying d h gt with
  | Some (games, delta) => if snd acc <? games then (delta, games) else acc
  | None => acc
  end.
Proof.
  unfold bucketStep, qualifying. destruct acc as [b m]; simpl.
  destruct (d !! gt) as [gtd|]; simpl; [|done].
  destruct (gtd !! h) as [hs|]; simpl; [|done].
  destruct (25 <=? _); done.
Qed.

Lemma qualifying_games d h gt games delta :
  qualifying d h gt = Some (games, delta) -> 25 <= games.
Proof.
  unfold qualifying. destruct (d !! gt) as [gtd|]; simpl; [|done].
  destruct (gtd !! h) as [hs|]; simpl; [|done].
  destruct (25 <=? _) eqn:E; [|done]. intros [= <- _]. lia.
Qed.

(** [getPlayerHeroWinRateDelta] in closed form over the two buckets: the
    delta of the qualifying bucket with more games, Quick Match on a tie. *)
Lemma getPlayerHeroWinRateDelta_buckets p d h :
  data p = Some d ->
  getPlayerHeroWinRateDelta (Some p) h =
  match qualifying d h "Quick Match", qualifying d h "Storm League" with
  | None, None => 0
  | Some (_, dq), None => dq
  | None, Some (_, ds) => ds
  | Some (gq, dq), Some (gs, ds) => if gq <? gs then ds else dq
  end.
Proof.
  intros Hd. unfold getPlayerHeroWinRateDelta, gameTypes. rewrite Hd.
  cbn [foldl]. rewrite !bucketStep_qualifying.
  destruct (qualifying d h "Quick Match") as [[gq dq]|] eqn:Q;
    destruct (qualifying d h "Storm League") as [[gs ds]|] eqn:S; simpl.
  - apply qualifying_games in Q. destruct (Z.ltb_spec 0 gq); [|lia]. simpl.
    destruct (gq <? gs); done.
  - apply qualifying_games in Q. destruct (Z.ltb_spec 0 gq); [done|lia].
  - apply qualifying_games in S. destruct (Z.ltb_spec 0 gs); [done|lia].
  - done.
Qed.

Lemma getPlayerHeroWinRateDelta_range player h :
  pct (-5) <= getPlayerHeroWinRateDelta player h <= pct 5.
Proof.
  assert (Hq : forall d gt g x, qualifying d h gt = Some (g, x) -> pct (-5) <= x <= pct 5).
  { intros d gt g x. unfold qualifying.
    destruct (d !! gt) as [gtd|]; simpl; [|done].
    destruct (gtd !! h) as [hs|]; simpl; [|done].
    destruct (25 <=? _); [|done]. intros [= _ <-]. apply cap5_range. }
  destruct player as [p|]; [|unfold getPlayerHeroWinRateDelta, pct; lia].
  destruct (data p) as [d|] eqn:Hd.
  - rewrite (getPlayerHeroWinRateDelta_buckets p d h Hd).
    destruct (qualifying d h "Quick Match") as [[gq dq]|] eqn:Q;
      destruct (qualifying d h "Storm League") as [[gs ds]|] eqn:S;
      try destruct (gq <? gs); eauto; unfold pct; lia.
  - unfold getPlayerHeroWinRateDelta. rewrite Hd. unfold pct; lia.
Qed.

(** Below the threshold in both buckets the delta is 0, whatever the win rates. *)
Lemma getPlayerHeroWinRateDelta_below_threshold p d h :
  data p = Some d ->
  (forall gameType gameTypeData heroStats,
      d !! gameType = Some gameTypeData -> gameTypeData !! h = Some heroStats ->
      orDefault (games_played heroStats) 0 < 25) ->
  getPlayerHeroWinRateDelta (Some p) h = 0.
Proof.
  intros Hd Hlow.
  assert (Hq : forall gt, qualifying d h gt = None).
  { intros gt. unfold qualifying.
    destruct (d !! gt) as [gtd|] eqn:E1; simpl; [|done].
    destruct (gtd !! h) as [hs|] eqn:E2; simpl; [|done].
    specialize (Hlow gt gtd hs E1 E2).
    destruct (Z.leb_spec 25 (orDefault (games_played hs) 0)); [lia|done]. }
  rewrite (getPlayerHeroWinRateDelta_buckets p d h Hd), !Hq. done.
Qed.

(** C5 (code defect). The claim asks, for a player with at least 25 games on
    the hero, for the win rate minus 50 clamped to [-5, +5]. For a player with
    30 Quick Match games on hero A and a recorded win rate of 0,
    [heroStats.win_rate || 50] reads the 0 as a missing value: the function
    returns 0, where the clamped delta of a 0% win rate is -5. *)
Theorem zero_win_rate_read_as_missing :
  getPlayerHeroWinRateDelta (Some zeroWins) "A" = 0
  /\ cap5 (0 - pct 50) = pct (-5).
Proof. split; reflexivity. Qed.

(** * Scoring *)

Lemma bindE_Ret {A B} (m : exc A) (k : A -> exc B) (b : B) :
  m ≫= k = Ret b -> exists a, m = Ret a /\ k a = Ret b.
Proof. destruct m; simpl; [eauto | done]. Qed.

Lemma globalWinRate_Ret heroData g :
  globalWinRate heroData = Ret g -> g = baseRate heroData.
Proof.
  unfold globalWinRate, baseRate. destruct (hd_global heroData); [|done]. by intros [= <-].
Qed.

Lemma globalWinRate_total heroData :
  is_Some (hd_global heroData) -> globalWinRate heroData = Ret (baseRate heroData).
Proof. intros [g Hg]. unfold globalWinRate, baseRate. by rewrite Hg. Qed.

(** ** The map component *)


Lemma mapPart_total st heroData :
  is_Some (hd_global heroData) -> exists r, mapPart st heroData = Ret r.
Proof.
  intros Hg. unfold mapPart.
  repeat case_match; eauto;
    rewrite (globalWinRate_total _ Hg); simpl; eauto.
Qed.

(** ** The matchup components *)

Lemma matchupStep_Ret side heroData matchups s t other s' t' :
  hd_matchups heroData = Some matchups ->
  matchupStep side heroData matchups (s, t) other = Ret (s', t') ->
  s' = s + default 0 (matchupDelta side heroData other)
  /\ t' = t ++ matchupTagsOf side heroData [other].
Proof.
  intros Hm. unfold matchupStep, matchupTagsOf, matchupDelta. rewrite Hm. simpl.
  destruct (matchups !! name other) as [mu|]; simpl;
    [|intros [= <- <-]; split; [lia | by rewrite app_nil_r]].
  destruct (sideStats side mu) as [ss|]; simpl;
    [|intros [= <- <-]; split; [lia | by rewrite app_nil_r]].
  destruct (confidence_adjusted_delta ss) as [delta|]; simpl;
    [|intros [= <- <-]; split; [lia | by rewrite app_nil_r]].
  destruct (pct 3 <=? Z.abs delta).
  - intros H. apply bindE_Ret in H as (g & Hg & H).
    apply globalWinRate_Ret in Hg as ->. by injection H as <- <-.
  - intros [= <- <-]. split; [lia | by rewrite app_nil_r].
Qed.

Lemma matchupTagsOf_cons side heroData other others :
  matchupTagsOf side heroData (other :: others)
  = matchupTagsOf side heroData [other] ++ matchupTagsOf side heroData others.
Proof. unfold matchupTagsOf. simpl. by rewrite app_nil_r. Qed.

Lemma matchupFold_Ret side heroData matchups others s t s' t' :
  hd_matchups heroData = Some matchups ->
  foldE (matchupStep side heroData matchups) (s, t) others = Ret (s', t') ->
  s' = s + sumDeltas side heroData others
  /\ t' = t ++ matchupTagsOf side heroData others.
Proof.
  intros Hm. revert s t. induction others as [|o os IH]; intros s t; cbn [foldE].
  - intros [= <- <-]. simpl. split; [lia | by rewrite app_nil_r].
  - intros H. apply bindE_Ret in H as ([s1 t1] & H1 & H2).
    apply (matchupStep_Ret _ _ _ _ _ _ _ _ Hm) in H1 as [-> ->].
    apply IH in H2 as [-> ->]. split; [simpl; lia|].
    by rewrite (matchupTagsOf_cons _ _ o os), app_assoc.
Qed.

Lemma sumDeltas_no_matchups side heroData others :
  hd_matchups heroData = None -> sumDeltas side heroData others = 0.
Proof.
  intros Hm. induction others as [|o os IH]; simpl; [done|].
  rewrite IH. unfold matchupDelta. by rewrite Hm.
Qed.

Lemma matchupTagsOf_no_matchups side heroData others :
  hd_matchups heroData = None -> matchupTagsOf side heroData others = [].
Proof.
  intros Hm. induction others as [|o os IH]; [done|].
  rewrite matchupTagsOf_cons, IH. unfold matchupTagsOf, matchupDelta. by rewrite Hm.
Qed.

Lemma matchupPart_Ret side heroData others s t :
  matchupPart side heroData others = Ret (s, t) ->
  s = sumDeltas side heroData others /\ t = matchupTagsOf side heroData others.
Proof.
  unfold matchupPart. destruct (hd_matchups heroData) as [ms|] eqn:Hm.
  - intros H. by apply (matchupFold_Ret _ _ _ _ _ _ _ _ Hm) in H as [-> ->].
  - intros [= <- <-].
    by rewrite sumDeltas_no_matchups, matchupTagsOf_no_matchups.
Qed.

Lemma matchupPart_total side heroData others :
  is_Some (hd_global heroData) -> exists r, matchupPart side heroData others = Ret r.
Proof.
  intros Hg. unfold matchupPart. destruct (hd_matchups heroData) as [ms|]; [|eauto].
  generalize (0, @nil Tag). induction others as [|o os IH]; intros acc; simpl; [eauto|].
  assert (exists acc', matchupStep side heroData ms acc o = Ret acc') as [acc' ->].
  { unfold matchupStep. destruct acc. repeat case_match; eauto;
      rewrite (globalWinRate_total _ Hg); simpl; eauto. }
  simpl. apply IH.
Qed.

(** ** The shape of a returned score *)

Lemma playerPart_delta st h team :
  (playerPart st h team).1
  = getPlayerWinRateDelta st h team (Some (assignments (draft st team))).
Proof.
  unfold playerPart.
  destruct (Z.eqb_spec (getPlayerWinRateDelta st h team (Some (assignments (draft st team)))) 0)
    as [->|]; [done|].
  repeat case_match; done.
Qed.

Lemma calculateHeroScore_absent st h team :
  heroesData st !! h = None ->
  calculateHeroScore st h team
  = Ret {| total := 0; breakdown := None; tags := [];
           expectedWinRate := pct 50; baseWinRate := None |}.
Proof. intros H. unfold calculateHeroScore. by rewrite H. Qed.

Lemma calculateHeroScore_present st h team heroData sc :
  heroesData st !! h = Some heroData ->
  calculateHeroScore st h team = Ret sc ->
  exists m mapTags,
    mapPart st heroData = Ret (m, mapTags) /\
    let b := {| bd_global := match hd_global heroData with
                             | Some gl => default 0 (confidence_adjusted_delta gl)
                             | None => 0
                             end;
                bd_map := m;
                bd_vsEnemy := sumDeltas asEnemy heroData (getPickedHeroes st (enemyOf team));
                bd_withAllies := sumDeltas asAlly heroData (getPickedHeroes st team);
                bd_playerDelta :=
                  getPlayerWinRateDelta st h team (Some (assignments (draft st team))) |} in
    breakdown sc = Some b /\
    total sc = bd_global b + bd_map b + bd_vsEnemy b + bd_withAllies b + bd_playerDelta b /\
    expectedWinRate sc = pct 50 + total sc /\
    tags sc = mapTags
              ++ matchupTagsOf asEnemy heroData (getPickedHeroes st (enemyOf team))
              ++ matchupTagsOf asAlly heroData (getPickedHeroes st team)
              ++ (playerPart st h team).2.
Proof.
  intros Hh. unfold calculateHeroScore. rewrite Hh.
  intros H. apply bindE_Ret in H as ([m mt] & Hm & H).
  apply bindE_Ret in H as ([e et] & He & H).
  apply bindE_Ret in H as ([a at'] & Ha & H).
  apply matchupPart_Ret in He as [-> ->]. apply matchupPart_Ret in Ha as [-> ->].
  pose proof (playerPart_delta st h team) as Hp.
  destruct (playerPart st h team) as [p pt]. simpl in Hp. subst p.
  injection H as <-. exists m, mt. split; [done|]. simpl.
  repeat split; done.
Qed.

Lemma calculateHeroScore_total st h team :
  catalogHasGlobal st -> exists sc, calculateHeroScore st h team = Ret sc.
Proof.
  intros Hcat. unfold calculateHeroScore.
  destruct (heroesData st !! h) as [hd|] eqn:Hh; [|eauto].
  pose proof (Hcat _ _ Hh) as Hg.
  destruct (mapPart_total st hd Hg) as [[m mt] ->].
  destruct (matchupPart_total asEnemy hd (getPickedHeroes st (enemyOf team)) Hg) as [[e et] ->].
  destruct (matchupPart_total asAlly hd (getPickedHeroes st team) Hg) as [[a at'] ->].
  simpl. destruct (playerPart st h team). eauto.
Qed.


(** A returned score always has [total] equal to the sum of the values of its
    breakdown and [expectedWinRate = 50 + total]. *)
Lemma calculateHeroScore_total_sum st h team sc :
  calculateHeroScore st h team = Ret sc ->
  total sc = foldl Z.add 0 (breakdownValues (breakdown sc))
  /\ expectedWinRate sc = pct 50 + total sc.
Proof.
  destruct (heroesData st !! h) as [hd|] eqn:Hh.
  - intros H. destruct (calculateHeroScore_present _ _ _ _ _ Hh H) as (m & mt & _ & Hb & Ht & He & _).
    rewrite Hb. simpl. split; [rewrite Ht; simpl; lia | done].
  - rewrite (calculateHeroScore_absent _ _ _ Hh). intros [= <-]. done.
Qed.

(** C1 (code defect). The claim asks [calculateHeroScore] to return for every
    input, a missing record counting for 0. Hero A has a catalog record with
    no [global] block and a +4 delta on the selected map M: the map tag reads
    [heroData.global.win_rate] without the guard that the global step and the
    base win rate have, and the call throws instead of returning. *)
Theorem calculateHeroScore_throws_without_global :
  heroesData stNoGlobal !! "A"%string = Some noGlobal
  /\ hd_global noGlobal = None
  /\ selectedMapDelta stNoGlobal noGlobal = Some (mapM, pct 4)
  /\ calculateHeroScore stNoGlobal "A" blue = TypeError.
Proof. repeat split; reflexivity. Qed.

(** * The player component *)

(** The flag computed by the loop over the assignments is the notion of an
    assigned player. *)
Lemma isAssignedToHero_spec d i :
  isAssignedToHero (assignments d) (picks d) i = true <-> assignedToPick d i.
Proof.
  unfold isAssignedToHero, assignedToPick. rewrite existsb_exists. split.
  - intros ([slotIdx v] & Hin & Hf). apply andb_true_iff in Hf as [Hv Hp].
    apply bool_decide_eq_true in Hv as ->. apply list_elem_of_In in Hin.
    apply elem_of_lookup_imap in Hin as (j & y & [= -> ->] & Hy).
    exists j. split; [done|]. unfold pickNotNull in Hp. intros E. by rewrite E in Hp.
  - intros (slotIdx & Ha & Hp). exists (slotIdx, Some i). split.
    + apply list_elem_of_In. by apply (elem_of_lookup_imap_2 pair).
    + apply andb_true_iff. split; [by apply bool_decide_eq_true|].
      unfold pickNotNull. destruct (picks d !! slotIdx) as [[?|]|]; done.
Qed.

Lemma freePlayer_unfold st team i player :
  freePlayer st team i player <->
  playerStats st team !! i = Some player
  /\ hasData player = true
  /\ isAssignedToHero (assignments (draft st team)) (picks (draft st team)) i = false.
Proof.
  unfold freePlayer. rewrite <- isAssignedToHero_spec.
  destruct (isAssignedToHero _ _ i); intuition congruence.
Qed.

Lemma getPlayerWinRateDelta_fold st h team a :
  getPlayerWinRateDelta st h team (Some a)
  = foldl (playerStep a (picks (draft st team)) h) 0 (imap pair (playerStats st team)).
Proof. unfold getPlayerWinRateDelta. by destruct (playerStats st team). Qed.

Lemma playerFold_max cur pks h l b0 :
  Z.abs b0 <= Z.abs (foldl (playerStep cur pks h) b0 l)
  /\ (forall i player, (i, player) ∈ l -> hasData player = true ->
        isAssignedToHero cur pks i = false ->
        Z.abs (getPlayerHeroWinRateDelta player h) <= Z.abs (foldl (playerStep cur pks h) b0 l))
  /\ (foldl (playerStep cur pks h) b0 l = b0
      \/ exists i player, (i, player) ∈ l /\ hasData player = true
           /\ isAssignedToHero cur pks i = false
           /\ getPlayerHeroWinRateDelta player h = foldl (playerStep cur pks h) b0 l).
Proof.
  revert b0. induction l as [|[i player] l IH]; intros b0; cbn [foldl].
  - split; [lia|]. split; [|by left]. intros ?? Hin. by apply elem_of_nil in Hin.
  - destruct (IH (playerStep cur pks h b0 (i, player))) as (Hge & Hall & Hex).
    assert (Hstep : Z.abs b0 <= Z.abs (playerStep cur pks h b0 (i, player))).
    { unfold playerStep. repeat case_match; lia. }
    split; [lia|]. split.
    + intros j q Hin Hd Hfree. apply elem_of_cons in Hin as [[= -> ->]|Hin]; [|eauto].
      etrans; [|exact Hge]. unfold playerStep. rewrite Hd, Hfree. simpl.
      case_match; lia.
    + destruct Hex as [Heq | (j & q & Hin & Hd & Hfree & Heq)].
      * rewrite Heq. unfold playerStep.
        destruct (hasData player) eqn:Hd; simpl; [|by left].
        destruct (isAssignedToHero cur pks i) eqn:Hfree; [by left|].
        case_match; [|by left].
        right. exists i, player. split; [apply elem_of_cons; by left|done].
      * right. exists j, q. split; [apply elem_of_cons; by right|done].
Qed.

(** The value returned by [getPlayerWinRateDelta] has the largest magnitude
    among the deltas of the free players, and is one of them unless it is 0. *)
Lemma getPlayerWinRateDelta_max st h team :
  let r := getPlayerWinRateDelta st h team (Some (assignments (draft st team))) in
  (forall i player, freePlayer st team i player ->
     Z.abs (getPlayerHeroWinRateDelta player h) <= Z.abs r)
  /\ (r = 0 \/ exists i player, freePlayer st team i player
                 /\ getPlayerHeroWinRateDelta player h = r).
Proof.
  intros r. subst r. rewrite getPlayerWinRateDelta_fold.
  destruct (playerFold_max (assignments (draft st team)) (picks (draft st team)) h
              (imap pair (playerStats st team)) 0) as (_ & Hall & Hex).
  split.
  - intros i player Hf. apply freePlayer_unfold in Hf as (Hl & Hd & Hfree).
    apply (Hall i player); [|done..]. by apply (elem_of_lookup_imap_2 pair).
  - destruct Hex as [?|(i & player & Hin & Hd & Hfree & Heq)]; [by left|right].
    exists i, player. split; [|done]. apply freePlayer_unfold. split; [|done].
    apply elem_of_lookup_imap in Hin as (j & y & [= -> ->] & Hl). done.
Qed.




Example playerDelta_of_the_fan :
  exists sc b, calculateHeroScore stFan "A" blue = Ret sc
    /\ breakdown sc = Some b /\ bd_playerDelta b = pct 5.
Proof. eexists _, _. split; [reflexivity|]. split; reflexivity. Qed.

(** * The ally component *)

Lemma sumDeltas_app side heroData l1 l2 :
  sumDeltas side heroData (l1 ++ l2)
  = sumDeltas side heroData l1 + sumDeltas side heroData l2.
Proof. induction l1 as [|o l1 IH]; simpl; [done|]. rewrite IH. lia. Qed.

(** With two allies picked the component is the sum of the two single-ally values. *)
Lemma sumDeltas_two side heroData a b :
  sumDeltas side heroData [a; b]
  = sumDeltas side heroData [a] + sumDeltas side heroData [b].
Proof. apply (sumDeltas_app side heroData [a] [b]). Qed.


(** C7 (code defect). The claim sums the as-ally deltas over the picked allies
    of the side, the scored hero left out. [calculateHeroScore] iterates over
    every pick of the side: when hero A is itself picked (the tooltip and the
    team win rate score picked heroes) and its record has an as-ally entry for
    A, that +4 is counted, while the sum over the picks other than A is 0. *)
Theorem withAllies_counts_the_scored_hero :
  getPickedHeroes stSelfAlly blue = [heroA]
  /\ matchupDelta asAlly selfAlly heroA = Some (pct 4)
  /\ sumDeltas asAlly selfAlly
       (filter (fun a => name a <> "A"%string) (getPickedHeroes stSelfAlly blue)) = 0
  /\ exists sc b, calculateHeroScore stSelfAlly "A" blue = Ret sc
       /\ breakdown sc = Some b /\ bd_withAllies b = pct 4.
Proof.
  split; [reflexivity|]. split; [reflexivity|]. split; [reflexivity|].
  eexists _, _. split; [reflexivity|]. split; reflexivity.
Qed.

(** * Tags *)

(** ** The search of the player named by the player tag *)

Section TagSearch.
Variables (players : list (option Player)) (h : string).







Variables (cur : list (option nat)) (pks : list (option Hero)).




End TagSearch.








Example tags_of_the_fan :
  exists sc, calculateHeroScore stFan "A" blue = Ret sc
    /\ tags sc = [playerTagOf "fan" (pct 60) (pct 5)].
Proof. eexists. split; reflexivity. Qed.

(** * Ranking *)

(** ** The stable sort *)

Lemma insertDesc_perm r l : insertDesc r l ≡ₚ r :: l.
Proof.
  induction l as [|x l IH]; simpl; [done|].
  case_match; [|done]. rewrite IH. apply Permutation_swap.
Qed.

Lemma sortDesc_perm l : sortDesc l ≡ₚ l.
Proof.
  induction l as [|x l IH]; simpl; [done|].
  fold (sortDesc l). by rewrite insertDesc_perm, IH.
Qed.

Lemma insertDesc_hd r x l :
  descending x r -> HdRel descending x l -> HdRel descending x (insertDesc r l).
Proof.
  intros Hxr Hhd. destruct l as [|y l]; simpl; [by constructor|].
  case_match; constructor; [by inversion Hhd|done].
Qed.

Lemma insertDesc_sorted r l :
  Sorted descending l -> Sorted descending (insertDesc r l).
Proof.
  induction 1 as [|x l Hs IH Hhd]; simpl; [by repeat constructor|].
  destruct (Z.ltb_spec (rec_expectedWinRate r) (rec_expectedWinRate x)).
  - constructor; [done|]. apply insertDesc_hd; [|done]. unfold descending. lia.
  - constructor; [by constructor|]. constructor. unfold descending. lia.
Qed.

Lemma sortDesc_sorted l : StronglySorted descending (sortDesc l).
Proof.
  apply Sorted_StronglySorted.
  - intros a b c. unfold descending. lia.
  - induction l as [|x l IH]; simpl; [constructor|]. by apply insertDesc_sorted.
Qed.

(** Stability: the recommendations of one win rate keep their relative order. *)
Lemma insertDesc_stable v r l :
  filter (fun x => rec_expectedWinRate x = v) (insertDesc r l)
  = filter (fun x => rec_expectedWinRate x = v) (r :: l).
Proof.
  induction l as [|x l IH]; simpl; [done|].
  destruct (Z.ltb_spec (rec_expectedWinRate r) (rec_expectedWinRate x)) as [Hlt|]; [|done].
  rewrite filter_cons, IH, !filter_cons.
  destruct (decide (rec_expectedWinRate x = v)), (decide (rec_expectedWinRate r = v));
    try done; lia.
Qed.

Lemma sortDesc_stable v l :
  filter (fun x => rec_expectedWinRate x = v) (sortDesc l)
  = filter (fun x => rec_expectedWinRate x = v) l.
Proof.
  induction l as [|x l IH]; simpl; [done|]. fold (sortDesc l).
  by rewrite insertDesc_stable, !filter_cons, IH.
Qed.

(** ** The candidates *)

Lemma recommendFold_Ret st team hs acc recs :
  foldE (recommendStep st team) acc hs = Ret recs ->
  exists new, recs = acc ++ new
    /\ ((rec_hero <$> new) `sublist_of` hs)
    /\ Forall (eligible st team) new.
Proof.
  revert acc. induction hs as [|hero hs IH]; intros acc; cbn [foldE].
  - intros [= <-]. exists []. rewrite app_nil_r. split; [done|]. split; [done|constructor].
  - intros H. apply bindE_Ret in H as (acc' & Hstep & H).
    apply IH in H as (new & -> & Hsub & Hall). clear IH.
    unfold recommendStep in Hstep.
    destruct (bool_decide (slug hero ∈ unavailableHeroes st)) eqn:Hu.
    { injection Hstep as <-. exists new. split; [done|]. split; [by apply sublist_cons|done]. }
    destruct (roleExcluded st team hero) eqn:Hr.
    { injection Hstep as <-. exists new. split; [done|]. split; [by apply sublist_cons|done]. }
    apply bindE_Ret in Hstep as (sc & Hsc & Hstep).
    destruct (hasScore sc) eqn:Hs.
    + injection Hstep as <-.
      exists ({| rec_hero := hero; rec_score := sc |} :: new).
      split; [by rewrite <- app_assoc|]. split; [by apply sublist_skip|].
      constructor; [|done]. unfold eligible. simpl.
      apply bool_decide_eq_false in Hu. done.
    + injection Hstep as <-. exists new. split; [done|]. split; [by apply sublist_cons|done].
Qed.

Lemma recommendFold_total st team hs acc :
  catalogHasGlobal st -> exists recs, foldE (recommendStep st team) acc hs = Ret recs.
Proof.
  intros Hcat. revert acc. induction hs as [|hero hs IH]; intros acc; cbn [foldE]; [eauto|].
  assert (exists acc', recommendStep st team acc hero = Ret acc') as [acc' ->].
  { unfold recommendStep. repeat case_match; eauto.
    destruct (calculateHeroScore_total st (name hero) team Hcat) as [sc ->]. simpl.
    case_match; eauto. }
  simpl. apply IH.
Qed.

Lemma getRecommendations_total st team :
  catalogHasGlobal st -> exists recs, getRecommendations st team = Ret recs.
Proof.
  intros Hcat. unfold getRecommendations. case_match; [eauto|].
  destruct (recommendFold_total st team (heroes st) [] Hcat) as [recs ->]. simpl. eauto.
Qed.

Lemma getRecommendations_throws st team :
  getRecommendations st team = TypeError -> ~ catalogHasGlobal st.
Proof.
  intros H Hcat. destruct (getRecommendations_total st team Hcat) as [recs Hr]. congruence.
Qed.

Lemma getRecommendations_Ret st team recs :
  getRecommendations st team = Ret recs ->
  exists unsorted, recs = sortDesc unsorted
    /\ ((rec_hero <$> unsorted) `sublist_of` heroes st)
    /\ Forall (eligible st team) unsorted.
Proof.
  unfold getRecommendations. case_match.
  - intros [= <-]. exists []. split; [done|]. split; [apply sublist_nil_l|constructor].
  - intros Hr. apply bindE_Ret in Hr as (unsorted & Hf & [= <-]).
    apply recommendFold_Ret in Hf as (new & -> & Hsub & Hall). exists new. done.
Qed.

Lemma getRecommendations_eligible st team recs r :
  getRecommendations st team = Ret recs -> r ∈ recs -> eligible st team r.
Proof.
  intros H Hin. apply getRecommendations_Ret in H as (unsorted & -> & _ & Hall).
  rewrite sortDesc_perm in Hin. rewrite Forall_forall in Hall. by apply Hall.
Qed.

Lemma drafted_unavailable st h : h ∈ draftedHeroes st -> slug h ∈ unavailableHeroes st.
Proof.
  unfold draftedHeroes, unavailableHeroes, draftedSlugs. rewrite elem_of_list_to_set.
  rewrite !elem_of_app. intros H.
  destruct H as [H|[H|[H|H]]]; apply (list_elem_of_fmap_2 slug) in H; tauto.
Qed.

(** C3. For every side, [getRecommendations] either throws (only when some
    catalog record has no [global] block) or returns a list in which no hero
    of a ban or pick slot of either side appears, neither as a hero nor by
    its slug. *)
Theorem drafted_heroes_not_recommended st team :
  match getRecommendations st team with
  | TypeError => ~ catalogHasGlobal st
  | Ret recs =>
    forall h, h ∈ draftedHeroes st ->
      (h ∉ (rec_hero <$> recs)) /\ (slug h ∉ (slug <$> (rec_hero <$> recs)))
  end.
Proof.
  destruct (getRecommendations st team) as [recs|] eqn:Hg;
    [|by apply (getRecommendations_throws st team)].
  intros h Hd. apply drafted_unavailable in Hd.
  assert (Hs : slug h ∉ (slug <$> (rec_hero <$> recs))).
  { intros Hin. apply list_elem_of_fmap in Hin as (h' & Heq & Hin).
    apply list_elem_of_fmap in Hin as (r & -> & Hin).
    destruct (getRecommendations_eligible _ _ _ _ Hg Hin) as (Hnot & _).
    apply Hnot. by rewrite <- Heq. }
  split; [|done]. intros Hin. apply Hs. by apply list_elem_of_fmap_2.
Qed.

(** Every entry of the list carries the score of its hero, a catalog record
    and a breakdown with a non-zero component. *)
Lemma recommended_has_signal st team recs r :
  getRecommendations st team = Ret recs -> r ∈ recs ->
  calculateHeroScore st (name (rec_hero r)) team = Ret (rec_score r)
  /\ is_Some (heroesData st !! name (rec_hero r))
  /\ exists b, breakdown (rec_score r) = Some b
       /\ ~ (bd_global b = 0 /\ bd_map b = 0 /\ bd_vsEnemy b = 0
             /\ bd_withAllies b = 0 /\ bd_playerDelta b = 0).
Proof.
  intros Hg Hin.
  destruct (getRecommendations_eligible _ _ _ _ Hg Hin) as (_ & _ & Hc & Hs).
  split; [done|].
  assert (Hb : exists b, breakdown (rec_score r) = Some b
           /\ ~ (bd_global b = 0 /\ bd_map b = 0 /\ bd_vsEnemy b = 0
                 /\ bd_withAllies b = 0 /\ bd_playerDelta b = 0)).
  { unfold hasScore in Hs. apply existsb_exists in Hs as (v & Hv & Hnz).
    destruct (breakdown (rec_score r)) as [b|]; [|done].
    exists b. split; [done|]. intros (H1 & H2 & H3 & H4 & H5).
    simpl in Hv. rewrite H1, H2, H3, H4, H5 in Hv.
    assert (v = 0) as -> by (clear -Hv; intuition). done. }
  split; [|done].
  destruct (heroesData st !! name (rec_hero r)) eqn:Hh; [eauto|].
  rewrite (calculateHeroScore_absent _ _ _ Hh) in Hc. injection Hc as Hc.
  destruct Hb as (b & Hb & _). rewrite <- Hc in Hb. done.
Qed.

(** C10. Whatever the match context, [getRecommendations] either throws (only
    when some catalog record has no [global] block) or returns a list that
    omits every hero whose score has all the values of its breakdown equal to
    0, and in particular every hero without a catalog record: each entry of
    the list has a breakdown with a non-zero component. *)
Theorem zero_breakdown_heroes_are_omitted st team :
  match getRecommendations st team with
  | TypeError => ~ catalogHasGlobal st
  | Ret recs =>
    (forall r, r ∈ recs ->
       exists b, breakdown (rec_score r) = Some b
         /\ ~ (bd_global b = 0 /\ bd_map b = 0 /\ bd_vsEnemy b = 0
               /\ bd_withAllies b = 0 /\ bd_playerDelta b = 0))
    /\ (forall hero sc,
          calculateHeroScore st (name hero) team = Ret sc ->
          Forall (fun val => val = 0) (breakdownValues (breakdown sc)) ->
          hero ∉ (rec_hero <$> recs))
    /\ (forall hero, heroesData st !! name hero = None -> hero ∉ (rec_hero <$> recs))
  end.
Proof.
  destruct (getRecommendations st team) as [recs|] eqn:Hg;
    [|by apply (getRecommendations_throws st team)].
  split; [|split].
  - intros r Hin. by destruct (recommended_has_signal _ _ _ _ Hg Hin) as (_ & _ & Hb).
  - intros hero sc Hc Hz Hin. apply list_elem_of_fmap in Hin as (r & -> & Hin).
    destruct (recommended_has_signal _ _ _ _ Hg Hin) as (Hc' & _ & b & Hb & Hnz).
    rewrite Hc in Hc'. injection Hc' as ->. rewrite Hb in Hz. simpl in Hz.
    apply Hnz. repeat (apply Forall_cons in Hz as [? Hz]). done.
  - intros hero Hh Hin. apply list_elem_of_fmap in Hin as (r & -> & Hin).
    destruct (recommended_has_signal _ _ _ _ Hg Hin) as (_ & [hd Hhd] & _). congruence.
Qed.

(** The list can miss an undrafted hero that the role filter lets through,
    even with a map selected: hero B has an all-zero breakdown and hero C no
    catalog record. *)
Lemma recommendations_can_omit_available_heroes :
  truthyMap stFlat = true
  /\ heroB ∈ heroes stFlat /\ (slug heroB ∉ unavailableHeroes stFlat)
  /\ roleExcluded stFlat blue heroB = false
  /\ heroC ∈ heroes stFlat /\ (slug heroC ∉ unavailableHeroes stFlat)
  /\ roleExcluded stFlat blue heroC = false
  /\ exists recs, getRecommendations stFlat blue = Ret recs
       /\ rec_hero <$> recs = [heroA].
Proof.
  split; [reflexivity|].
  split; [unfold stFlat, mkState; simpl; set_solver|].
  split; [vm_compute; set_solver|]. split; [reflexivity|].
  split; [unfold stFlat, mkState; simpl; set_solver|].
  split; [vm_compute; set_solver|]. split; [reflexivity|].
  eexists. split; reflexivity.
Qed.

(** C4, counterexample. The hero list is [Z; A] and both heroes score the same
    expected win rate: the list returned is [Z; A], although A comes before Z
    by name and by slug. *)
Lemma ties_keep_the_hero_list_order :
  exists r1 r2, getRecommendations stTie blue = Ret [r1; r2]
    /\ rec_expectedWinRate r1 = rec_expectedWinRate r2
    /\ String.ltb (name (rec_hero r2)) (name (rec_hero r1)) = true
    /\ String.ltb (slug (rec_hero r2)) (slug (rec_hero r1)) = true.
Proof. eexists _, _. split; [reflexivity|]. repeat split. Qed.

(** C4, amended. The list returned by [getRecommendations] is sorted by
    decreasing [expectedWinRate], and the recommendations of one
    [expectedWinRate] appear in the order of their heroes in the hero list
    (the sort is stable and its comparator looks at nothing else), which makes
    the output order deterministic. *)
Theorem recommendations_sorted_stably st team :
  match getRecommendations st team with
  | TypeError => ~ catalogHasGlobal st
  | Ret recs =>
    StronglySorted descending recs
    /\ forall v,
        (rec_hero <$> filter (fun r => rec_expectedWinRate r = v) recs)
          `sublist_of` heroes st
  end.
Proof.
  destruct (getRecommendations st team) as [recs|] eqn:Hg;
    [|by apply (getRecommendations_throws st team)].
  apply getRecommendations_Ret in Hg as (unsorted & -> & Hsub & _).
  split; [apply sortDesc_sorted|].
  intros v. rewrite sortDesc_stable. etrans; [|exact Hsub].
  apply fmap_sublist, sublist_filter.
Qed.

(** With B banned by red and C picked by blue, only A is recommended, to
    either side. *)
Example drafted_heroes_example :
  (exists recs, getRecommendations stDrafted blue = Ret recs
                /\ rec_hero <$> recs = [heroA])
  /\ (exists recs, getRecommendations stDrafted red = Ret recs
                   /\ rec_hero <$> recs = [heroA]).
Proof. split; eexists; split; reflexivity. Qed.

Local Open Scope nat_scope.

(** * Assignment of picked heroes to players *)

(** ** Arrays of player indices *)

Lemma alreadyAssigned_referenced a p :
  alreadyAssigned a p = true <-> p ∈ referenced a.
Proof.
  unfold alreadyAssigned, referenced. rewrite existsb_exists, list_elem_of_omap.
  split.
  - intros (x & Hin & Hx). apply bool_decide_eq_true in Hx as ->.
    exists (Some p). split; [by apply list_elem_of_In|done].
  - intros (x & Hin & Hx). simpl in Hx. subst x.
    exists (Some p). split; [by apply list_elem_of_In|by apply bool_decide_eq_true].
Qed.

Lemma alreadyAssigned_free a p :
  alreadyAssigned a p = false -> p ∉ referenced a.
Proof.
  intros Hf Hin. apply alreadyAssigned_referenced in Hin. congruence.
Qed.

Lemma referenced_insert a s p :
  a !! s = Some None -> referenced (<[s := Some p]> a) ≡ₚ p :: referenced a.
Proof.
  revert s. induction a as [|x a IH]; intros s Hs; [done|].
  destruct s as [|s]; simpl in *.
  - by injection Hs as ->.
  - unfold referenced in *. simpl. destruct x as [q|]; simpl.
    + rewrite (IH s Hs). apply Permutation_swap.
    + by apply IH.
Qed.

Lemma referenced_insert_NoDup a s p :
  a !! s = Some None -> alreadyAssigned a p = false ->
  NoDup (referenced a) -> NoDup (referenced (<[s := Some p]> a)).
Proof.
  intros Hs Hf Hnd. rewrite (referenced_insert a s p Hs).
  apply NoDup_cons. split; [by apply alreadyAssigned_free|done].
Qed.

Lemma nullFrom_insert n a s x :
  s < n -> nullFrom n a -> nullFrom n (<[s := x]> a).
Proof.
  intros Hs Hn j p Hj. rewrite list_lookup_insert_ne by lia. by apply Hn.
Qed.

Lemma referenced_cons x a :
  referenced (x :: a) = match x with Some p => p :: referenced a | None => referenced a end.
Proof. by destruct x. Qed.

Lemma referenced_length a : length (referenced a) <= length a.
Proof.
  induction a as [|x a IH]; [done|].
  rewrite referenced_cons. destruct x; simpl; lia.
Qed.

Lemma referenced_length_null a s :
  a !! s = Some None -> length (referenced a) < length a.
Proof.
  revert s. induction a as [|x a IH]; intros s Hs; [done|].
  rewrite referenced_cons. destruct s as [|s]; simpl in Hs.
  - injection Hs as ->. pose proof (referenced_length a). simpl. lia.
  - specialize (IH s Hs). destruct x; simpl; lia.
Qed.

Lemma referenced_nullFrom n a :
  nullFrom n a -> referenced a = referenced (take n a).
Proof.
  intros Hn. rewrite <- (take_drop n a) at 1. unfold referenced. rewrite omap_app.
  assert (Hd : omap id (drop n a) = []).
  { assert (forall x, x ∈ drop n a -> x = None) as Hall.
    { intros x Hx. apply list_elem_of_lookup in Hx as [i Hi].
      rewrite lookup_drop in Hi. destruct x as [p|]; [|done].
      by apply Hn in Hi; [|lia]. }
    induction (drop n a) as [|x l IHl]; [done|]. simpl.
    rewrite (Hall x) by (apply elem_of_cons; by left). simpl.
    apply IHl. intros y Hy. apply Hall, elem_of_cons. by right. }
  by rewrite Hd, app_nil_r.
Qed.

(** With a null slot among the first [n] and nothing but nulls after them,
    fewer than [n] players are referenced. *)
Lemma referenced_fewer n a s :
  nullFrom n a -> s < n -> a !! s = Some None -> length (referenced a) < n.
Proof.
  intros Hn Hs Hnull. rewrite (referenced_nullFrom n a Hn).
  assert (take n a !! s = Some None) as Ht by (by rewrite lookup_take_lt).
  apply referenced_length_null in Ht. rewrite length_take in Ht. lia.
Qed.

(** ** The search of a free player *)

Lemma firstAvailable_free validPlayers a p :
  firstAvailable validPlayers a = Some p -> alreadyAssigned a p = false.
Proof.
  unfold firstAvailable. intros H. apply find_some in H as [_ H].
  by apply negb_true_iff in H.
Qed.

Lemma firstAvailable_found validPlayers a :
  NoDup (referenced a) -> length (referenced a) < length validPlayers ->
  is_Some (firstAvailable validPlayers a).
Proof.
  intros Hnd Hlt. destruct (firstAvailable validPlayers a) as [p|] eqn:Hf; [eauto|].
  exfalso. unfold firstAvailable in Hf.
  assert (seq 0 (length validPlayers) ⊆+ referenced a) as Hsub.
  { apply NoDup_submseteq; [apply NoDup_seq|]. intros idx Hidx.
    apply alreadyAssigned_referenced. apply list_elem_of_In in Hidx.
    pose proof (find_none _ _ Hf idx Hidx) as Hn. simpl in Hn.
    by apply negb_false_iff in Hn. }
  apply submseteq_length in Hsub. rewrite length_seq in Hsub. lia.
Qed.

Lemma bestFold_free a h l acc :
  (acc = (None, pct (-999))
   \/ exists p, acc.1 = Some p /\ alreadyAssigned a p = false) ->
  let r := foldl (bestStep a h) acc l in
  r = (None, pct (-999)) \/ exists p, r.1 = Some p /\ alreadyAssigned a p = false.
Proof.
  revert acc. induction l as [|[i player] l IH]; intros acc Hacc; cbn [foldl]; [done|].
  apply IH. unfold bestStep.
  destruct (alreadyAssigned a i) eqn:Hi; [done|].
  case_match; [|done]. right. by exists i.
Qed.

(** ** The passes keep the entries that are set *)

Lemma secondStep_keeps validPlayers a ih s p :
  a !! s = Some (Some p) -> secondStep validPlayers a ih !! s = Some (Some p).
Proof.
  intros Hs. unfold secondStep. destruct ih as [slot [h|]]; [|done].
  case_bool_decide as Hnull; [|done].
  assert (slot <> s) by (intros ->; congruence).
  repeat case_match; try done; by rewrite list_lookup_insert_ne.
Qed.

Lemma secondPass_keeps validPlayers pks a s p :
  a !! s = Some (Some p) -> secondPass validPlayers pks a !! s = Some (Some p).
Proof.
  unfold secondPass. generalize (imap pair pks). intros l. revert a.
  induction l as [|ih l IH]; intros a Hs; cbn [foldl]; [done|].
  by apply IH, secondStep_keeps.
Qed.

Lemma thirdStep_keeps validPlayers a slot s p :
  a !! s = Some (Some p) -> thirdStep validPlayers a slot !! s = Some (Some p).
Proof.
  intros Hs. unfold thirdStep.
  case_bool_decide as Hnull; simpl; [|done].
  assert (slot <> s) by (intros ->; congruence).
  repeat case_match; try done; by rewrite list_lookup_insert_ne.
Qed.

Lemma thirdPass_keeps validPlayers a s p :
  a !! s = Some (Some p) -> thirdPass validPlayers a !! s = Some (Some p).
Proof.
  unfold thirdPass. generalize (seq 0 5). intros l. revert a.
  induction l as [|slot l IH]; intros a Hs; cbn [foldl]; [done|].
  by apply IH, thirdStep_keeps.
Qed.

(** ** Distinct players *)

Lemma secondStep_distinct validPlayers a slot hero :
  (is_Some hero -> slot < length validPlayers) ->
  NoDup (referenced a) /\ nullFrom (length validPlayers) a ->
  NoDup (referenced (secondStep validPlayers a (slot, hero)))
  /\ nullFrom (length validPlayers) (secondStep validPlayers a (slot, hero)).
Proof.
  intros Hslot [Hnd Hn]. unfold secondStep. destruct hero as [h|]; [|done].
  case_bool_decide as Hnull; [|done].
  assert (slot < length validPlayers) as Hlt by (apply Hslot; eauto).
  destruct (foldl _ _ _) as [bi bd] eqn:Hb.
  pose proof (bestFold_free a (name h) (imap pair validPlayers) (None, pct (-999))
                (or_introl eq_refl)) as Hfree.
  simpl in Hfree. rewrite Hb in Hfree.
  destruct (Z.ltb_spec (pct (-999)) bd) as [Hgt|].
  - destruct Hfree as [[= -> ->]|(p & Hp & Hf)]; [lia|]. simpl in Hp. subst bi.
    split; [by apply referenced_insert_NoDup|by apply nullFrom_insert].
  - destruct (firstAvailable validPlayers a) as [p|] eqn:Hf; [|done].
    apply firstAvailable_free in Hf.
    split; [by apply referenced_insert_NoDup|by apply nullFrom_insert].
Qed.

Lemma secondPass_distinct validPlayers pks a :
  (forall s, length validPlayers <= s -> picked pks s = None) ->
  NoDup (referenced a) /\ nullFrom (length validPlayers) a ->
  NoDup (referenced (secondPass validPlayers pks a))
  /\ nullFrom (length validPlayers) (secondPass validPlayers pks a).
Proof.
  intros Hp. unfold secondPass.
  assert (forall slot hero, (slot, hero) ∈ imap pair pks ->
            is_Some hero -> slot < length validPlayers) as Hl.
  { intros slot hero Hin [h ->].
    apply elem_of_lookup_imap in Hin as (i & y & [= -> <-] & Hy).
    destruct (decide (i < length validPlayers)) as [|Hge]; [done|].
    specialize (Hp i ltac:(lia)). unfold picked in Hp. rewrite Hy in Hp. done. }
  revert Hl. generalize (imap pair pks). intros l. revert a.
  induction l as [|[slot hero] l IH]; intros a Hl Ha; cbn [foldl]; [done|].
  apply IH.
  - intros s h Hin. apply Hl, elem_of_cons. by right.
  - apply secondStep_distinct; [|done]. apply Hl, elem_of_cons. by left.
Qed.

Lemma thirdStep_distinct validPlayers a slot :
  NoDup (referenced a) /\ nullFrom (length validPlayers) a ->
  NoDup (referenced (thirdStep validPlayers a slot))
  /\ nullFrom (length validPlayers) (thirdStep validPlayers a slot).
Proof.
  intros [Hnd Hn]. unfold thirdStep.
  case_bool_decide as Hnull; simpl; [|done].
  case_bool_decide as Hlt; simpl; [|done].
  destruct (firstAvailable_found validPlayers a Hnd) as [p Hf].
  { by apply (referenced_fewer _ a slot). }
  rewrite Hf. apply firstAvailable_free in Hf.
  split; [by apply referenced_insert_NoDup|by apply nullFrom_insert].
Qed.

Lemma thirdPass_distinct validPlayers a :
  NoDup (referenced a) /\ nullFrom (length validPlayers) a ->
  NoDup (referenced (thirdPass validPlayers a))
  /\ nullFrom (length validPlayers) (thirdPass validPlayers a).
Proof.
  unfold thirdPass. generalize (seq 0 5). intros l. revert a.
  induction l as [|slot l IH]; intros a Ha; cbn [foldl]; [done|].
  by apply IH, thirdStep_distinct.
Qed.

(** ** The first pass *)

Lemma firstPass_lookup pks manual cur s :
  s < 5 ->
  firstPass pks manual cur !! s
  = Some (if default false (manual !! s) && bool_decide (is_Some (picked pks s))
          then default None (cur !! s) else None).
Proof.
  intros Hs. unfold firstPass, nullSlots. cbn [foldl seq replicate].
  destruct s as [|[|[|[|[|s]]]]]; [..|lia]; split_conditions; reflexivity.
Qed.

Lemma firstPass_length pks manual cur : length (firstPass pks manual cur) = 5.
Proof.
  unfold firstPass, nullSlots. cbn [foldl seq replicate].
  split_conditions; reflexivity.
Qed.

Lemma firstPass_nullFrom n pks manual cur :
  (forall s, n <= s -> picked pks s = None) ->
  nullFrom n (firstPass pks manual cur).
Proof.
  intros Hp s p Hs Hl. destruct (decide (s < 5)) as [H5|H5].
  - rewrite (firstPass_lookup _ _ _ _ H5), (Hp s Hs) in Hl.
    rewrite andb_false_r in Hl. done.
  - apply lookup_lt_Some in Hl. rewrite firstPass_length in Hl. lia.
Qed.

(** The first pass reads the previous assignments only at the manual slots
    that hold a hero. *)
Lemma firstPass_ext pks manual cur cur' :
  (forall s, s < 5 -> default false (manual !! s) = true -> is_Some (picked pks s) ->
             default None (cur !! s) = default None (cur' !! s)) ->
  firstPass pks manual cur = firstPass pks manual cur'.
Proof.
  intros Heq. apply list_eq. intros s. destruct (decide (s < 5)) as [H5|H5].
  - rewrite !firstPass_lookup by done.
    destruct (default false (manual !! s)) eqn:Hm; [|done].
    case_bool_decide as Hpk; [|done]. simpl. f_equal. by apply Heq.
  - rewrite !lookup_ge_None_2; [done|rewrite firstPass_length; lia..].
Qed.

(** ** The resolver *)

(** C2, counterexample. Two players, heroes picked in the slots 2 and 3 only:
    the second pass gives them the players 0 and 1, and the third pass, finding
    every player referenced, falls back to [assignments[slotIndex] = slotIndex]
    in the slots 0 and 1. Each player ends up in two slots. *)
Lemma fallback_repeats_a_player :
  validPlayersOf [Some alice; Some bob] = [Some alice; Some bob]
  /\ assignments (assignHeroesToPlayers [Some alice; Some bob] lateSlots)
     = [Some 0; Some 1; Some 0; Some 1; None].
Proof. split; reflexivity. Qed.

(** C2, amended. When the manual assignments kept by the first pass are
    pairwise distinct and no hero is picked in a slot whose index is at or
    beyond the number of valid players (always so with five players), no two
    non-null entries of the array left by [assignHeroesToPlayers] reference
    the same player. *)
Theorem distinct_players_when_picks_lead players d :
  NoDup (referenced (firstPass (picks d) (manualAssignments d) (assignments d))) ->
  (forall s, length (validPlayersOf players) <= s -> picked (picks d) s = None) ->
  NoDup (referenced (assignments (assignHeroesToPlayers players d))).
Proof.
  intros Hnd Hp. unfold assignHeroesToPlayers.
  destruct (validPlayersOf players) as [|v vs] eqn:Hv; [simpl; constructor|].
  cbn [assignments]. rewrite <- Hv in *. clear Hv.
  apply thirdPass_distinct, secondPass_distinct; [done|].
  split; [done|]. by apply firstPass_nullFrom.
Qed.

(** Two players and picks in the slots 0 and 1. *)
Lemma distinct_players_when_picks_lead_witness :
  NoDup (referenced (assignments (assignHeroesToPlayers [Some alice; Some bob] leadingSlots))).
Proof.
  apply (distinct_players_when_picks_lead [Some alice; Some bob] leadingSlots).
  - vm_compute. constructor.
  - intros [|[|[|[|[|s]]]]] Hs; simpl in Hs; try lia; reflexivity.
Defined.

(** C9, counterexample. Two players, three picks; slot 1 is flagged manual
    with a null assignment, slot 2 manual with player 0. The first run leaves
    [1, 1, 0, null, null]; the second run keeps the 1 now found in the manual
    slot 1 and leaves [0, 1, 0, null, null]. *)
Lemma manual_null_breaks_idempotence :
  assignments (assignHeroesToPlayers [Some alice; Some bob] manualNull)
  = [Some 1; Some 1; Some 0; None; None]
  /\ assignments (assignHeroesToPlayers [Some alice; Some bob]
                    (assignHeroesToPlayers [Some alice; Some bob] manualNull))
     = [Some 0; Some 1; Some 0; None; None].
Proof. split; reflexivity. Qed.

(** C9, amended. When every slot that is flagged manual and holds a hero has
    a non-null assignment, running [assignHeroesToPlayers] twice in a row
    leaves the team's draft record, and so its assignments array, as one run
    does. *)
Theorem assignHeroesToPlayers_idempotent players d :
  (forall s h, manualAssignments d !! s = Some true -> picked (picks d) s = Some h ->
               exists p, assignments d !! s = Some (Some p)) ->
  assignHeroesToPlayers players (assignHeroesToPlayers players d)
  = assignHeroesToPlayers players d.
Proof.
  intros Hset. unfold assignHeroesToPlayers.
  destruct (validPlayersOf players) as [|v vs] eqn:Hv; [done|].
  cbn [bans picks assignments manualAssignments]. rewrite <- Hv. clear Hv.
  f_equal. f_equal. f_equal.
  apply firstPass_ext. intros s H5 Hm [h Hh].
  destruct (manualAssignments d !! s) as [m|] eqn:Hms; simpl in Hm; [subst m|done].
  destruct (Hset s h Hms Hh) as [p Hp].
  assert (firstPass (picks d) (manualAssignments d) (assignments d) !! s = Some (Some p)) as H1.
  { rewrite firstPass_lookup, Hms, Hh, Hp by done. done. }
  apply (secondPass_keeps (validPlayersOf players) (picks d)) in H1.
  apply (thirdPass_keeps (validPlayersOf players)) in H1.
  by rewrite Hp, H1.
Qed.

(** One pick, manually given to player 1. *)
Lemma assignHeroesToPlayers_idempotent_witness :
  assignHeroesToPlayers [Some alice; Some bob]
    (assignHeroesToPlayers [Some alice; Some bob] manualSet)
  = assignHeroesToPlayers [Some alice; Some bob] manualSet.
Proof.
  apply (assignHeroesToPlayers_idempotent [Some alice; Some bob] manualSet).
  intros [|[|[|[|[|s]]]]] h Hm Hp; simpl in *; try discriminate. by exists 1.
Defined.

(** [fillEmptySlots] has the same sequential fallback: with both players
    already referenced, the slots 0 and 1 repeat them. *)
Lemma fillEmptySlots_fallback :
  assignments (fillEmptySlots [Some alice; Some bob]
     {| bans := replicate 3 None; picks := [None; None; Some heroA; Some heroB; None];
        assignments := [None; None; Some 0; Some 1; None];
        manualAssignments := replicate 5 false |})
  = [Some 0; Some 1; Some 0; Some 1; None].
Proof. reflexivity. Qed.

Local Open Scope Z_scope.

(** * Further properties of the engine *)

(** ** Scoring *)


(** X2. Scoring returns for every hero, side and draft once every record of the
    catalog has its [global] block. *)
Theorem score_returns_when_records_have_global st h team :
  catalogHasGlobal st -> exists sc, calculateHeroScore st h team = Ret sc.
Proof. apply calculateHeroScore_total. Qed.

Lemma score_returns_when_records_have_global_witness :
  exists sc, calculateHeroScore stTie "A" blue = Ret sc.
Proof.
  apply (score_returns_when_records_have_global stTie "A" blue).
  intros h hd H. unfold stTie, mkState in H. simpl in H.
  apply lookup_insert_Some in H as [[_ <-]|[_ H]]; [by eexists|].
  apply lookup_singleton_Some in H as [_ <-]. by eexists.
Defined.



(** With the allies B (+2) and C (+3) picked, [withAllies] is 5: the sum of
    the two single-ally values. *)
Example withAllies_of_two_allies :
  (exists sc b, calculateHeroScore stAllies "A" blue = Ret sc
     /\ breakdown sc = Some b /\ bd_withAllies b = pct 5)
  /\ sumDeltas asAlly paired [heroB] = pct 2
  /\ sumDeltas asAlly paired [heroC] = pct 3.
Proof.
  split; [eexists _, _; split; [reflexivity|]; split; reflexivity|].
  split; reflexivity.
Qed.

(** The threshold of the matchup tags is applied to each pair: two enemies
    worth +2 each make a [vsEnemy] of 4 and no tag. *)
Example summed_component_without_tag :
  exists sc b, calculateHeroScore stEnemies "A" blue = Ret sc
    /\ breakdown sc = Some b /\ bd_vsEnemy b = pct 4 /\ tags sc = [].
Proof. eexists _, _. split; [reflexivity|]. split; [reflexivity|]. split; reflexivity. Qed.

(** ** Per-player delta *)

(** X4. The per-player delta always lies within [-5, +5]. *)
Theorem player_delta_within_cap player h :
  pct (-5) <= getPlayerHeroWinRateDelta player h <= pct 5.
Proof. apply getPlayerHeroWinRateDelta_range. Qed.

(** X5. With fewer than 25 games on the hero in every game-type bucket the delta
    is exactly 0, whatever the win rates. *)
Theorem player_delta_zero_below_threshold p d h :
  data p = Some d ->
  (forall gameType gameTypeData heroStats,
      d !! gameType = Some gameTypeData -> gameTypeData !! h = Some heroStats ->
      orDefault (games_played heroStats) 0 < 25) ->
  getPlayerHeroWinRateDelta (Some p) h = 0.
Proof. apply getPlayerHeroWinRateDelta_below_threshold. Qed.

Lemma player_delta_zero_below_threshold_witness :
  getPlayerHeroWinRateDelta (Some casual) "A" = 0.
Proof.
  eapply (player_delta_zero_below_threshold casual); [reflexivity|].
  intros gt gtd hs Hgt Hh. simpl in Hgt.
  apply lookup_singleton_Some in Hgt as [_ <-].
  apply lookup_singleton_Some in Hh as [_ <-]. simpl. lia.
Defined.

(** X6. When the bucket with strictly the most games among the qualifying ones
    records a non-zero win rate [w], the delta is [w - 50] clamped to
    [-5, +5]. *)
Theorem player_delta_of_largest_bucket p d h gameType gameTypeData heroStats games w :
  data p = Some d ->
  gameType ∈ gameTypes ->
  d !! gameType = Some gameTypeData -> gameTypeData !! h = Some heroStats ->
  games_played heroStats = Some games -> 25 <= games ->
  hs_win_rate heroStats = Some w -> w <> 0 ->
  (forall other g x, other ∈ gameTypes -> other <> gameType ->
                     qualifying d h other = Some (g, x) -> g < games) ->
  getPlayerHeroWinRateDelta (Some p) h = cap5 (w - pct 50).
Proof.
  intros Hd Hgt Hl1 Hl2 Hg Hge Hw Hnz Hmost.
  assert (Hq : qualifying d h gameType = Some (games, cap5 (w - pct 50))).
  { unfold qualifying. rewrite Hl1. simpl. rewrite Hl2. simpl. rewrite Hg, Hw. simpl.
    destruct (Z.eqb_spec games 0); [lia|]. destruct (Z.eqb_spec w 0); [done|].
    destruct (Z.leb_spec 25 games); [done|lia]. }
  rewrite (getPlayerHeroWinRateDelta_buckets p d h Hd).
  unfold gameTypes in *. apply elem_of_cons in Hgt as [->|Hgt].
  - rewrite Hq. destruct (qualifying d h "Storm League") as [[gs ds]|] eqn:Hs; [|done].
    assert (gs < games) by (apply (Hmost "Storm League"%string gs ds); [set_solver|done|done]).
    destruct (Z.ltb_spec games gs); [lia|done].
  - apply list_elem_of_singleton in Hgt as ->. rewrite Hq.
    destruct (qualifying d h "Quick Match") as [[gq dq]|] eqn:Hs; [|done].
    assert (gq < games) by (apply (Hmost "Quick Match"%string gq dq); [set_solver|done|done]).
    destruct (Z.ltb_spec gq games); [done|lia].
Qed.

Lemma player_delta_of_largest_bucket_witness :
  getPlayerHeroWinRateDelta (Some veteran) "A" = cap5 (4500 - pct 50).
Proof.
  apply (player_delta_of_largest_bucket veteran ranked "A" "Storm League"
           {[ "A"%string := mkHeroStats (Some 40) (Some 4500) ]}
           (mkHeroStats (Some 40) (Some 4500)) 40 4500);
    try reflexivity; try lia.
  - unfold gameTypes. set_solver.
  - intros other g x Hin Hne Hq. unfold gameTypes in Hin.
    apply elem_of_cons in Hin as [->|Hin];
      [|apply list_elem_of_singleton in Hin as ->; done].
    vm_compute in Hq. injection Hq as <- _. lia.
Defined.

(** ** Ranking *)

(** X7. Without a selected map and without a pick on either side the list is
    empty. *)
Theorem no_signal_no_recommendations st team :
  truthyMap st = false ->
  getPickedHeroes st team = [] -> getPickedHeroes st (enemyOf team) = [] ->
  getRecommendations st team = Ret [].
Proof.
  intros Hm Ho He. unfold getRecommendations. by rewrite Hm, Ho, He.
Qed.

Lemma no_signal_no_recommendations_witness :
  getRecommendations stEmpty blue = Ret [].
Proof. apply (no_signal_no_recommendations stEmpty blue); reflexivity. Defined.


Local Open Scope nat_scope.

(** ** Assignment *)

(** X9. A slot flagged manual that still holds a hero keeps the player it was
    given. *)
Theorem resolver_keeps_manual_assignments players d s h p :
  validPlayersOf players <> [] -> s < 5 ->
  manualAssignments d !! s = Some true -> picked (picks d) s = Some h ->
  assignments d !! s = Some (Some p) ->
  assignments (assignHeroesToPlayers players d) !! s = Some (Some p).
Proof.
  intros Hv H5 Hm Hh Hp. unfold assignHeroesToPlayers.
  destruct (validPlayersOf players) as [|v vs] eqn:E; [done|].
  cbn [assignments]. rewrite <- E. apply thirdPass_keeps, secondPass_keeps.
  rewrite firstPass_lookup, Hm, Hh, Hp by done. done.
Qed.

Lemma resolver_keeps_manual_assignments_witness :
  assignments (assignHeroesToPlayers [Some alice; Some bob] manualSet) !! 0
  = Some (Some 1).
Proof.
  apply (resolver_keeps_manual_assignments [Some alice; Some bob] manualSet 0 heroA 1);
    try reflexivity; [done|lia].
Defined.


(** Two manual slots given to the same player are both kept by the first
    pass: the distinctness of the manual assignments cannot be dropped. *)
Example manual_duplicates_are_kept :
  assignments (assignHeroesToPlayers [Some alice; Some bob] manualTwice)
  = [Some 0; Some 0; None; None; None].
Proof. reflexivity. Qed.

Local Open Scope nat_scope.

(** * Draft mutations *)

(** ** Search by index *)

Lemma find_fmap {A B} (g : B -> bool) (h : A -> B) (l : list A) :
  List.find g (h <$> l) = h <$> List.find (fun x => g (h x)) l.
Proof.
  induction l as [|x l IH]; [done|]. cbn. destruct (g (h x)); [done|]. apply IH.
Qed.

Lemma findIndex_cons {A} (f : nat -> A -> bool) x l :
  findIndex f (x :: l)
  = if f 0 x then Some 0 else S <$> findIndex (fun i => f (S i)) l.
Proof.
  unfold findIndex. cbn. destruct (f 0 x); [done|].
  assert (imap (pair ∘ S) l = prod_map S id <$> imap pair l) as ->.
  { rewrite fmap_imap. by apply imap_ext. }
  rewrite find_fmap. by destruct (List.find _ _) as [[]|].
Qed.

Lemma findIndex_Some {A} (f : nat -> A -> bool) l i :
  findIndex f l = Some i ->
  exists x, l !! i = Some x /\ f i x = true
            /\ forall j y, j < i -> l !! j = Some y -> f j y = false.
Proof.
  revert f i. induction l as [|x l IH]; intros f i H; [done|].
  rewrite findIndex_cons in H. destruct (f 0 x) eqn:E.
  - injection H as <-. exists x. split_and!; [done|done|lia].
  - destruct (findIndex _ l) as [k|] eqn:Hk; [|done]. injection H as <-.
    apply IH in Hk as (y & Hy & Hf & Hlt). exists y. split_and!; [done|done|].
    intros [|j] z Hj Hz; cbn in Hz; [congruence|]. apply (Hlt j z); [lia|done].
Qed.

Lemma findIndex_None {A} (f : nat -> A -> bool) l :
  findIndex f l = None -> forall i x, l !! i = Some x -> f i x = false.
Proof.
  revert f. induction l as [|x l IH]; intros f H i y Hy; [done|].
  rewrite findIndex_cons in H. destruct (f 0 x) eqn:E; [done|].
  destruct (findIndex _ l) eqn:Hk; [done|].
  destruct i as [|i]; cbn in Hy; [congruence|]. by apply (IH _ Hk i y).
Qed.

(** ** Distinct entries, by position *)

Lemma referenced_elem a p : p ∈ referenced a <-> exists i, a !! i = Some (Some p).
Proof.
  unfold referenced. rewrite list_elem_of_omap. split.
  - intros ([q|] & Hin & Hq); [|done]. cbn in Hq. injection Hq as ->.
    by apply list_elem_of_lookup in Hin.
  - intros [i Hi]. exists (Some p). split; [|done]. by eapply list_elem_of_lookup_2.
Qed.

Lemma referenced_NoDup a :
  NoDup (referenced a)
  <-> forall i j p, a !! i = Some (Some p) -> a !! j = Some (Some p) -> i = j.
Proof.
  induction a as [|x a IH].
  - split; [intros _ i j p H; done|intros _; constructor].
  - rewrite referenced_cons. destruct x as [q|].
    + rewrite NoDup_cons, IH, referenced_elem. split.
      * intros [Hq Hinj] [|i] [|j] p Hi Hj; cbn in Hi, Hj; [done| | |].
        -- exfalso. apply Hq. exists j. by simplify_eq.
        -- exfalso. apply Hq. exists i. by simplify_eq.
        -- f_equal. by apply (Hinj i j p).
      * intros Hinj. split.
        -- intros [i Hi]. by specialize (Hinj 0 (S i) q eq_refl Hi).
        -- intros i j p Hi Hj. by specialize (Hinj (S i) (S j) p Hi Hj) as [= ->].
    + rewrite IH. split.
      * intros Hinj [|i] [|j] p Hi Hj; cbn in Hi, Hj; try done.
        f_equal. by apply (Hinj i j p).
      * intros Hinj i j p Hi Hj. by specialize (Hinj (S i) (S j) p Hi Hj) as [= ->].
Qed.

(** ** [assignSingleHero] *)

Lemma boundElsewhere_spec a pks s p :
  boundElsewhere a pks s p = true
  <-> exists idx, idx <> s /\ a !! idx = Some (Some p) /\ pickNotNull pks idx = true.
Proof.
  unfold boundElsewhere. rewrite existsb_exists. split.
  - intros ([idx v] & Hin & Hf). apply andb_true_iff in Hf as [Hf Hp].
    apply andb_true_iff in Hf as [Hne Hv].
    apply bool_decide_eq_true in Hv as ->. apply list_elem_of_In in Hin.
    apply elem_of_lookup_imap in Hin as (j & y & [= -> ->] & Hy).
    exists j. split_and!; [|done|done].
    apply negb_true_iff in Hne. by apply Nat.eqb_neq.
  - intros (idx & Hne & Ha & Hp). exists (idx, Some p). split.
    + apply list_elem_of_In. by apply (elem_of_lookup_imap_2 pair).
    + rewrite Hp, bool_decide_eq_true_2 by done.
      apply Nat.eqb_neq in Hne. by rewrite Hne.
Qed.

Lemma assignWithSwap_lookup_slot a s p :
  s < length a -> assignWithSwap a s p !! s = Some (Some p).
Proof.
  intros Hs. unfold assignWithSwap. apply list_lookup_insert_eq.
  destruct (findIndex _ a); by rewrite ?length_insert.
Qed.

(** The swap touches the slot itself and, at most, one slot that held the
    player. *)
Lemma assignWithSwap_lookup_other a s p idx :
  idx <> s -> a !! idx <> Some (Some p) -> assignWithSwap a s p !! idx = a !! idx.
Proof.
  intros Hne Hp. unfold assignWithSwap. rewrite list_lookup_insert_ne by done.
  destruct (findIndex _ a) as [c|] eqn:Hc; [|done].
  apply findIndex_Some in Hc as (x & Hx & Hf & _).
  apply andb_true_iff in Hf as [_ Hf]. apply bool_decide_eq_true in Hf as ->.
  rewrite list_lookup_insert_ne; [done|]. intros ->. by apply Hp.
Qed.

Lemma assignWithSwap_NoDup a s p :
  NoDup (referenced a) -> NoDup (referenced (assignWithSwap a s p)).
Proof.
  rewrite !referenced_NoDup. intros Hinj. unfold assignWithSwap.
  destruct (findIndex _ a) as [c|] eqn:Hc.
  - apply findIndex_Some in Hc as (x & Hx & Hf & _).
    apply andb_true_iff in Hf as [Hne Hf]. apply bool_decide_eq_true in Hf as ->.
    apply negb_true_iff, Nat.eqb_neq in Hne.
    assert (c < length a) as Hcl by (by eapply lookup_lt_Some).
    assert (forall i q, <[s:=Some p]> (<[c:=default None (a !! s)]> a) !! i = Some (Some q) ->
              (i = s /\ q = p) \/ (i = c /\ a !! s = Some (Some q) /\ i <> s)
              \/ (i <> s /\ i <> c /\ a !! i = Some (Some q))) as Hcases.
    { intros i q Hi. destruct (decide (i = s)) as [->|Hs].
      - left. apply list_lookup_insert_Some in Hi as [(_ & [= ->] & _)|[? _]]; done.
      - rewrite list_lookup_insert_ne in Hi by done.
        destruct (decide (i = c)) as [->|Hic].
        + right; left. rewrite list_lookup_insert_eq in Hi by done.
          injection Hi as Hi. destruct (a !! s) as [v|]; cbn in Hi; [|done].
          by subst v.
        + right; right. by rewrite list_lookup_insert_ne in Hi. }
    intros i j q Hi Hj. apply Hcases in Hi, Hj.
    destruct Hi as [[-> ->]|[(-> & Hi & Hi')|(Hi1 & Hi2 & Hi)]];
      destruct Hj as [[-> Hq]|[(-> & Hj & Hj')|(Hj1 & Hj2 & Hj)]]; try done.
    + exfalso. apply Hne. by apply (Hinj c s p).
    + exfalso. apply Hj2. by apply (Hinj j c p).
    + subst q. exfalso. apply Hne. by apply (Hinj c s p).
    + exfalso. apply Hj1. by apply (Hinj j s q).
    + subst q. exfalso. apply Hi2. by apply (Hinj i c p).
    + exfalso. apply Hi1. by apply (Hinj i s q).
    + by apply (Hinj i j q).
  - pose proof (findIndex_None _ _ Hc) as Hno.
    assert (forall i, i <> s -> a !! i <> Some (Some p)) as Hfree.
    { intros i Hi Hp. specialize (Hno i (Some p) Hp). cbn beta in Hno.
      apply Nat.eqb_neq in Hi. rewrite Hi, bool_decide_eq_true_2 in Hno; done. }
    intros i j q Hi Hj.
    destruct (decide (i = s)) as [->|Hi']; destruct (decide (j = s)) as [->|Hj']; [done| | |].
    + rewrite list_lookup_insert_ne in Hj by done.
      apply list_lookup_insert_Some in Hi as [(_ & [= ->] & _)|[? _]]; [|done].
      by destruct (Hfree j).
    + rewrite list_lookup_insert_ne in Hi by done.
      apply list_lookup_insert_Some in Hj as [(_ & [= ->] & _)|[? _]]; [|done].
      by destruct (Hfree i).
    + rewrite list_lookup_insert_ne in Hi, Hj by done. by apply (Hinj i j q).
Qed.

(** The loop of [assignSingleHero] over any list of indexed players. *)
Lemma singleFold_spec a pks s h l acc :
  let delta := fun player => getPlayerHeroWinRateDelta player h in
  let r := foldl (singleStep a pks s h) acc l in
  (forall i player, (i, player) ∈ l -> boundElsewhere a pks s i = false ->
     (delta player <= snd r)%Z)
  /\ (snd acc <= snd r)%Z
  /\ (r = acc
      \/ exists l1 i player l2, l = l1 ++ (i, player) :: l2
           /\ boundElsewhere a pks s i = false
           /\ r = (Some i, delta player)
           /\ (snd acc < delta player)%Z
           /\ (forall j other, (j, other) ∈ l1 -> boundElsewhere a pks s j = false ->
                 (delta other < delta player)%Z)).
Proof.
  intros delta. induction l as [|[i player] l IH] using rev_ind; cbn zeta.
  - split_and!; [intros ? ? H; by apply elem_of_nil in H|done|by left].
  - rewrite foldl_app. cbn [foldl]. cbn zeta in IH.
    set (r' := foldl (singleStep a pks s h) acc l) in *.
    destruct IH as (Hmax & Hge & Hr).
    assert (singleStep a pks s h r' (i, player)
            = if boundElsewhere a pks s i then r'
              else if (snd r' <? delta player)%Z then (Some i, delta player) else r')
      as -> by done.
    destruct (boundElsewhere a pks s i) eqn:Hb.
    + split_and!.
      * intros j other Hin Hj. apply elem_of_app in Hin as [Hin|Hin]; [by eapply Hmax|].
        apply list_elem_of_singleton in Hin as [= -> ->]. congruence.
      * done.
      * destruct Hr as [Hr|(l1 & k & q & l2 & -> & Hk & Hr & Hlt & Hfirst)]; [by left|].
        right. exists l1, k, q, (l2 ++ [(i, player)]). by rewrite <- app_assoc.
    + destruct (Z.ltb_spec (snd r') (delta player)) as [Hlt|Hle].
      * split_and!.
        -- intros j other Hin Hj. cbn [snd].
           apply elem_of_app in Hin as [Hin|Hin].
           ++ specialize (Hmax j other Hin Hj). lia.
           ++ apply list_elem_of_singleton in Hin as [= -> ->]. lia.
        -- cbn [snd]. lia.
        -- right. exists l, i, player, []. split_and!; [done|done|done|lia|].
           intros j other Hin Hj. specialize (Hmax j other Hin Hj). lia.
      * split_and!.
        -- intros j other Hin Hj. apply elem_of_app in Hin as [Hin|Hin]; [by eapply Hmax|].
           apply list_elem_of_singleton in Hin as [= -> ->]. done.
        -- done.
        -- destruct Hr as [Hr|(l1 & k & q & l2 & -> & Hk & Hr & Hlt & Hfirst)]; [by left|].
           right. exists l1, k, q, (l2 ++ [(i, player)]). by rewrite <- app_assoc.
Qed.

Lemma imap_pair_split {A} (vp : list A) l1 i x l2 :
  imap pair vp = l1 ++ (i, x) :: l2 ->
  vp !! i = Some x /\ forall j y, j < i -> vp !! j = Some y -> (j, y) ∈ l1.
Proof.
  intros H.
  assert (i = length l1 /\ vp !! i = Some x) as [Hi Hx].
  { assert (imap pair vp !! length l1 = Some (i, x)) as Hl.
    { rewrite H. by rewrite list_lookup_middle. }
    rewrite list_lookup_imap in Hl. destruct (vp !! length l1) eqn:E; [|done].
    cbn in Hl. by injection Hl as <- ->. }
  split; [done|]. intros j y Hj Hy.
  assert (imap pair vp !! j = Some (j, y)) as Hl by (by rewrite list_lookup_imap, Hy).
  rewrite H, lookup_app_l in Hl by lia. by eapply list_elem_of_lookup_2.
Qed.

(** The loop of [assignSingleHero] over the valid players: nobody is chosen
    exactly when every player is bound to another hero; otherwise the choice
    is the first of the unbound players with the largest delta. *)
Lemma singleFold_choice a pks s h vp :
  let delta := fun player => getPlayerHeroWinRateDelta player h in
  let r := foldl (singleStep a pks s h) (None, pct (-999)) (imap pair vp) in
  (r = (None, pct (-999))
   /\ forall p, p < length vp -> boundElsewhere a pks s p = true)
  \/ (exists p player, r = (Some p, delta player) /\ (pct (-999) < delta player)%Z
        /\ vp !! p = Some player /\ boundElsewhere a pks s p = false
        /\ forall q other, vp !! q = Some other -> boundElsewhere a pks s q = false ->
             (delta other <= delta player)%Z /\ (q < p -> (delta other < delta player)%Z)).
Proof.
  intros delta r.
  destruct (singleFold_spec a pks s h (imap pair vp) (None, pct (-999)))
    as (Hmax & _ & Hr). fold r in Hmax, Hr. fold delta in Hmax, Hr.
  destruct Hr as [Hr|(l1 & p & player & l2 & Hl & Hb & Hr & Hlt & Hfirst)].
  - left. split; [done|]. intros p Hp.
    destruct (boundElsewhere a pks s p) eqn:Hb; [done|exfalso].
    apply lookup_lt_is_Some_2 in Hp as [player Hplayer].
    assert ((p, player) ∈ imap pair vp) as Hin by (by apply (elem_of_lookup_imap_2 pair)).
    specialize (Hmax p player Hin Hb). rewrite Hr in Hmax. cbn [snd] in Hmax.
    pose proof (getPlayerHeroWinRateDelta_range player h) as Hrange.
    unfold delta in Hmax. unfold pct in *. lia.
  - right. apply imap_pair_split in Hl as Hsplit. destruct Hsplit as [Hp Hbefore].
    exists p, player. split_and!; [done|done|done|done|].
    intros q other Hq Hqb. split.
    + assert ((q, other) ∈ imap pair vp) as Hin by (by apply (elem_of_lookup_imap_2 pair)).
      specialize (Hmax q other Hin Hqb). by rewrite Hr in Hmax.
    + intros Hlt'. apply (Hfirst q other); [|done]. by apply Hbefore.
Qed.

Lemma pickNotNull_true pks idx : pickNotNull pks idx = true <-> pks !! idx <> Some None.
Proof. unfold pickNotNull. destruct (pks !! idx) as [[?|]|]; split; done. Qed.

Lemma boundElsewhere_bound d s p :
  boundElsewhere (assignments d) (picks d) s p = true <-> boundToOtherHero d s p.
Proof.
  rewrite boundElsewhere_spec. unfold boundToOtherHero.
  by setoid_rewrite pickNotNull_true.
Qed.

Lemma boundElsewhere_free d s p :
  boundElsewhere (assignments d) (picks d) s p = false <-> ~ boundToOtherHero d s p.
Proof.
  rewrite <- boundElsewhere_bound. by destruct (boundElsewhere _ _ _ _).
Qed.

Lemma firstNotBound_None vp a pks s :
  (forall p, p < length vp -> boundElsewhere a pks s p = true) ->
  firstNotBound vp a pks s = None.
Proof.
  intros Hall. unfold firstNotBound.
  destruct (List.find _ _) as [p|] eqn:Hf; [|done].
  apply find_some in Hf as [Hin Hp]. apply in_seq in Hin.
  rewrite Hall in Hp by lia. done.
Qed.

(** The two outcomes of [assignSingleHero]. *)
Lemma assignSingleHero_cases players d s hero :
  let vp := validPlayersOf players in
  let delta := fun player => getPlayerHeroWinRateDelta player (name hero) in
  (assignSingleHero players d s hero = d
   /\ forall p, p < length vp -> boundToOtherHero d s p)
  \/ (exists p player,
        assignSingleHero players d s hero
        = {| bans := bans d; picks := picks d;
             assignments := assignWithSwap (assignments d) s p;
             manualAssignments := manualAssignments d |}
        /\ vp !! p = Some player /\ ~ boundToOtherHero d s p
        /\ forall q other, vp !! q = Some other -> ~ boundToOtherHero d s q ->
             (delta other <= delta player)%Z /\ (q < p -> (delta other < delta player)%Z)).
Proof.
  intros vp delta. unfold assignSingleHero. fold vp.
  destruct vp as [|v vs] eqn:E.
  { left. split; [done|]. cbn. lia. }
  rewrite <- E. clear E v vs.
  destruct (singleFold_choice (assignments d) (picks d) s (name hero) vp)
    as [[Hr Hall]|(p & player & Hr & Hlt & Hp & Hb & Hmax)].
  - left. rewrite Hr. rewrite Z.ltb_irrefl, (firstNotBound_None _ _ _ _ Hall).
    split; [by destruct d|]. intros p Hp. by apply boundElsewhere_bound, Hall.
  - right. exists p, player. rewrite Hr.
    apply Z.ltb_lt in Hlt. rewrite Hlt. split_and!; [done|done| |].
    + by apply boundElsewhere_free.
    + intros q other Hq Hqb. apply (Hmax q other Hq). by apply boundElsewhere_free.
Qed.

(** ** Loops that clear assignments *)

Lemma insert_lookup_same {A} (l : list A) i x :
  <[i := x]> l !! i = (fun _ => x) <$> l !! i.
Proof.
  destruct (l !! i) eqn:E; cbn.
  - apply list_lookup_insert_eq. by eapply lookup_lt_Some.
  - rewrite list_insert_ge; [done|]. by apply lookup_ge_None.
Qed.

Section ClearFold.
Variable cond : nat -> option nat -> bool.
Variable step :
  list (option nat) * list bool -> nat * option nat -> list (option nat) * list bool.
Hypothesis step_eq : forall am i v,
  step am (i, v) = if cond i v then (<[i := None]> am.1, <[i := false]> am.2) else am.

Lemma clearFold_prefix a0 m0 prefix i :
  let r := foldl step (a0, m0) (imap pair prefix) in
  r.1 !! i = match prefix !! i with
             | Some v => if cond i v then (fun _ => None) <$> a0 !! i else a0 !! i
             | None => a0 !! i
             end
  /\ r.2 !! i = match prefix !! i with
                | Some v => if cond i v then (fun _ => false) <$> m0 !! i else m0 !! i
                | None => m0 !! i
                end.
Proof.
  induction prefix as [|x prefix IH] using rev_ind; [done|].
  cbn zeta in *. rewrite imap_app, foldl_app. cbn [imap foldl].
  rewrite Nat.add_0_r, step_eq.
  set (r := foldl step (a0, m0) (imap pair prefix)) in *.
  destruct IH as [IHa IHm].
  destruct (decide (i = length prefix)) as [->|Hne].
  - rewrite (list_lookup_middle prefix [] x (length prefix) eq_refl).
    rewrite (lookup_ge_None_2 prefix) in IHa, IHm by lia.
    destruct (cond _ x); cbn [fst snd]; [|done].
    by rewrite !insert_lookup_same, IHa, IHm.
  - assert ((prefix ++ [x]) !! i = prefix !! i) as ->.
    { destruct (decide (i < length prefix)); [by rewrite lookup_app_l|].
      rewrite !lookup_ge_None_2; [done|lia|rewrite length_app; cbn; lia]. }
    destruct (cond _ x); cbn [fst snd]; [|done].
    by rewrite !list_lookup_insert_ne.
Qed.

Lemma clearFold_lookup a m i :
  let r := foldl step (a, m) (imap pair a) in
  r.1 !! i = (fun v => if cond i v then None else v) <$> a !! i
  /\ r.2 !! i = match a !! i with
                | Some v => if cond i v then (fun _ => false) <$> m !! i else m !! i
                | None => m !! i
                end.
Proof.
  cbn zeta. destruct (clearFold_prefix a m a i) as [Ha Hm]. split; [|done].
  rewrite Ha. destruct (a !! i) as [v|]; [|done]. cbn. by destruct (cond i v).
Qed.
End ClearFold.

(** ** [assignPlayerToHero] *)

Lemma assignPlayerToHero_lookup d s p i :
  assignments (assignPlayerToHero d s (Some p)) !! i
  = if decide (i = s) then (fun _ => Some p) <$> assignments d !! i
    else (fun v => if bool_decide (v = Some p) then None else v) <$> assignments d !! i.
Proof.
  unfold assignPlayerToHero.
  destruct (clearFold_lookup
              (fun i v => negb (i =? s) && bool_decide (v = Some p))
              (unassignStep s p) (fun am i v => eq_refl)
              (assignments d) (manualAssignments d) i) as [Ha _].
  destruct (clearFold_lookup
              (fun i v => negb (i =? s) && bool_decide (v = Some p))
              (unassignStep s p) (fun am i v => eq_refl)
              (assignments d) (manualAssignments d) s) as [Hs _].
  destruct (foldl _ _ _) as [a m]. cbn [assignments fst] in *.
  destruct (decide (i = s)) as [->|Hne].
  - rewrite insert_lookup_same, Hs. by destruct (assignments d !! s).
  - rewrite list_lookup_insert_ne, Ha by done.
    apply Nat.eqb_neq in Hne. by rewrite Hne.
Qed.

Lemma assignPlayerToHero_flags d s p i :
  manualAssignments (assignPlayerToHero d s (Some p)) !! i
  = if decide (i = s) then (fun _ => true) <$> manualAssignments d !! i
    else match assignments d !! i with
         | Some v => if bool_decide (v = Some p)
                     then (fun _ => false) <$> manualAssignments d !! i
                     else manualAssignments d !! i
         | None => manualAssignments d !! i
         end.
Proof.
  unfold assignPlayerToHero.
  destruct (clearFold_lookup
              (fun i v => negb (i =? s) && bool_decide (v = Some p))
              (unassignStep s p) (fun am i v => eq_refl)
              (assignments d) (manualAssignments d) i) as [_ Hm].
  destruct (clearFold_lookup
              (fun i v => negb (i =? s) && bool_decide (v = Some p))
              (unassignStep s p) (fun am i v => eq_refl)
              (assignments d) (manualAssignments d) s) as [_ Hs].
  destruct (foldl _ _ _) as [a m]. cbn [manualAssignments snd] in *.
  destruct (decide (i = s)) as [->|Hne].
  - rewrite insert_lookup_same, Hs, Nat.eqb_refl. cbn.
    by destruct (assignments d !! s).
  - rewrite list_lookup_insert_ne, Hm by done.
    apply Nat.eqb_neq in Hne. by rewrite Hne.
Qed.

(** ** [fillEmptySlots] *)

Lemma fillStep_keeps players a slot s q :
  a !! s = Some (Some q) -> fillStep players a slot !! s = Some (Some q).
Proof.
  intros Hs. unfold fillStep.
  case_bool_decide as Hnull; simpl; [|done].
  assert (slot <> s) by (intros ->; congruence).
  repeat case_match; try done; by rewrite list_lookup_insert_ne.
Qed.

Lemma fillFold_keeps players l a s q :
  a !! s = Some (Some q) -> foldl (fillStep players) a l !! s = Some (Some q).
Proof.
  revert a. induction l as [|slot l IH]; intros a Hs; cbn [foldl]; [done|].
  by apply IH, fillStep_keeps.
Qed.

Lemma fillStep_length players a slot : length (fillStep players a slot) = length a.
Proof. unfold fillStep. repeat case_match; by rewrite ?length_insert. Qed.

Lemma fillStep_fills players a s :
  s < length a -> s < length players -> exists q, fillStep players a s !! s = Some (Some q).
Proof.
  intros Ha Hp. unfold fillStep.
  destruct (lookup_lt_is_Some_2 a s Ha) as [[q|] Hq].
  - exists q. rewrite bool_decide_eq_false_2; [done|congruence].
  - rewrite !bool_decide_eq_true_2 by done. cbn.
    destruct (firstUnreferenced players a s) as [f|]; eexists;
      by apply list_lookup_insert_eq.
Qed.

Lemma fillFold_fills players l a s :
  s ∈ l -> s < length a -> s < length players ->
  exists q, foldl (fillStep players) a l !! s = Some (Some q).
Proof.
  revert a. induction l as [|slot l IH]; intros a Hin Ha Hp; cbn [foldl].
  - by apply elem_of_nil in Hin.
  - destruct (decide (slot = s)) as [->|Hne].
    + destruct (fillStep_fills players a s Ha Hp) as [q Hq].
      exists q. by apply fillFold_keeps.
    + apply elem_of_cons in Hin as [->|Hin]; [done|].
      apply IH; [done| |done]. by rewrite fillStep_length.
Qed.

Lemma find_ext_in {A} (f g : A -> bool) l :
  (forall x, x ∈ l -> f x = g x) -> List.find f l = List.find g l.
Proof.
  induction l as [|x l IH]; intros H; [done|]. cbn.
  rewrite (H x) by left. rewrite IH; [done|]. intros y Hy. apply H. by right.
Qed.

Lemma validPlayersOf_all players :
  Forall (fun p => hasData p = true) players -> validPlayersOf players = players.
Proof.
  unfold validPlayersOf. induction 1 as [|p players Hp _ IH]; [done|].
  cbn. by rewrite Hp, IH.
Qed.

Lemma otherSlots_alreadyAssigned a s p :
  a !! s = Some None ->
  existsb (fun '(idx, assignedIdx) =>
             negb (Nat.eqb idx s) && bool_decide (assignedIdx = Some p))
          (imap pair a)
  = alreadyAssigned a p.
Proof.
  intros Hs. apply eq_true_iff_eq. unfold alreadyAssigned.
  rewrite !existsb_exists. split.
  - intros ([idx v] & Hin & Hf). apply andb_true_iff in Hf as [_ Hv].
    apply list_elem_of_In, elem_of_lookup_imap in Hin as (j & y & [= -> ->] & Hy).
    exists y. split; [|done]. apply list_elem_of_In. by eapply list_elem_of_lookup_2.
  - intros (v & Hin & Hv). apply bool_decide_eq_true in Hv as ->.
    apply list_elem_of_In, list_elem_of_lookup in Hin as [idx Hidx].
    exists (idx, Some p). split.
    + apply list_elem_of_In. by apply (elem_of_lookup_imap_2 pair).
    + rewrite bool_decide_eq_true_2 by done.
      assert (idx <> s) as Hne by (intros ->; congruence).
      apply Nat.eqb_neq in Hne. by rewrite Hne.
Qed.

Lemma fillStep_thirdStep players a s :
  Forall (fun p => hasData p = true) players ->
  fillStep players a s = thirdStep players a s.
Proof.
  intros Hall. unfold fillStep, thirdStep.
  case_bool_decide as Hnull; [|done]. case_bool_decide as Hlt; [|done]. cbn.
  assert (firstUnreferenced players a s = firstAvailable players a) as ->; [|done].
  unfold firstUnreferenced, firstAvailable. apply find_ext_in.
  intros p Hp. apply elem_of_seq in Hp as [_ Hp]. cbn in Hp.
  destruct (lookup_lt_is_Some_2 players p Hp) as [player Hplayer].
  rewrite Hplayer. cbn. rewrite Forall_forall in Hall.
  rewrite (Hall player) by (by eapply list_elem_of_lookup_2).
  by rewrite (otherSlots_alreadyAssigned a s p Hnull).
Qed.

Lemma fillFold_thirdPass players a :
  Forall (fun p => hasData p = true) players ->
  foldl (fillStep players) a (seq 0 5) = thirdPass players a.
Proof.
  intros Hall. unfold thirdPass. generalize (seq 0 5). intros l. revert a.
  induction l as [|s l IH]; intros a; cbn [foldl]; [done|].
  by rewrite (fillStep_thirdStep _ _ _ Hall), IH.
Qed.

Lemma thirdStep_length vp a slot : length (thirdStep vp a slot) = length a.
Proof. unfold thirdStep. repeat case_match; by rewrite ?length_insert. Qed.

Lemma thirdPass_length vp a : length (thirdPass vp a) = length a.
Proof.
  unfold thirdPass. generalize (seq 0 5). intros l. revert a.
  induction l as [|slot l IH]; intros a; cbn [foldl]; [done|].
  by rewrite IH, thirdStep_length.
Qed.

(** ** The third pass of the resolver and [fillEmptySlots] *)

Lemma thirdStep_fills vp a s :
  s < length a -> s < length vp -> exists q, thirdStep vp a s !! s = Some (Some q).
Proof.
  intros Ha Hp. unfold thirdStep.
  destruct (lookup_lt_is_Some_2 a s Ha) as [[q|] Hq].
  - exists q. rewrite bool_decide_eq_false_2; [done|congruence].
  - rewrite !bool_decide_eq_true_2 by done. cbn.
    destruct (firstAvailable vp a) as [f|]; eexists; by apply list_lookup_insert_eq.
Qed.

Lemma thirdFold_fills vp l a s :
  s ∈ l -> s < length a -> s < length vp ->
  exists q, foldl (thirdStep vp) a l !! s = Some (Some q).
Proof.
  revert a. induction l as [|slot l IH]; intros a Hin Ha Hp; cbn [foldl].
  - by apply elem_of_nil in Hin.
  - destruct (decide (slot = s)) as [->|Hne].
    + destruct (thirdStep_fills vp a s Ha Hp) as [q Hq].
      exists q. fold (thirdPass vp). revert Hq. generalize (thirdStep vp a s).
      clear. intros a Hq. revert a Hq.
      induction l as [|x l IH]; intros a Hq; cbn [foldl]; [done|].
      by apply IH, thirdStep_keeps.
    + apply elem_of_cons in Hin as [->|Hin]; [done|].
      apply IH; [done| |done]. by rewrite thirdStep_length.
Qed.

Lemma thirdFold_id vp l a :
  (forall s, s ∈ l -> s < length vp -> a !! s <> Some None) ->
  foldl (thirdStep vp) a l = a.
Proof.
  induction l as [|slot l IH]; intros H; cbn [foldl]; [done|].
  assert (thirdStep vp a slot = a) as ->.
  { unfold thirdStep. case_bool_decide as Hnull; [|done].
    case_bool_decide as Hlt; [|done]. destruct (H slot); [by left|done|done]. }
  apply IH. intros s Hs. apply H. by right.
Qed.

Lemma thirdPass_idem vp a : thirdPass vp (thirdPass vp a) = thirdPass vp a.
Proof.
  unfold thirdPass at 1. apply thirdFold_id. intros s Hs Hlt.
  destruct (decide (s < length a)) as [Ha|Ha].
  - destruct (thirdFold_fills vp (seq 0 5) a s Hs Ha Hlt) as [q Hq].
    unfold thirdPass. by rewrite Hq.
  - rewrite lookup_ge_None_2; [done|]. rewrite thirdPass_length. lia.
Qed.

Lemma fillEmptySlots_assignments players d :
  validPlayersOf players <> [] ->
  assignments (fillEmptySlots players d)
  = foldl (fillStep players) (assignments d) (seq 0 5).
Proof. unfold fillEmptySlots. by destruct (validPlayersOf players). Qed.

Lemma fillEmptySlots_rest players d :
  bans (fillEmptySlots players d) = bans d
  /\ picks (fillEmptySlots players d) = picks d
  /\ manualAssignments (fillEmptySlots players d) = manualAssignments d.
Proof. unfold fillEmptySlots. by destruct (validPlayersOf players). Qed.

Lemma fillEmptySlots_keeps players d s q :
  assignments d !! s = Some (Some q) ->
  assignments (fillEmptySlots players d) !! s = Some (Some q).
Proof.
  intros Hs. unfold fillEmptySlots. destruct (validPlayersOf players); [done|].
  cbn [assignments]. by apply fillFold_keeps.
Qed.

(** ** [assignSingleHero] *)

(** X10. [assignSingleHero] gives the slot to a player that is not bound to the
    hero of another slot and has the largest delta for the hero, the first of
    them in the list of players with data; when every such player is bound
    (or there is none), the draft is left as it is. *)
Theorem single_hero_goes_to_best_free_player players d s hero :
  s < length (assignments d) ->
  (assignSingleHero players d s hero = d
   /\ forall p, p < length (validPlayersOf players) -> boundToOtherHero d s p)
  \/ (exists p player,
        validPlayersOf players !! p = Some player
        /\ ~ boundToOtherHero d s p
        /\ assignments (assignSingleHero players d s hero) !! s = Some (Some p)
        /\ forall q other,
             validPlayersOf players !! q = Some other -> ~ boundToOtherHero d s q ->
             (getPlayerHeroWinRateDelta other (name hero)
              <= getPlayerHeroWinRateDelta player (name hero))%Z
             /\ (q < p -> (getPlayerHeroWinRateDelta other (name hero)
                           < getPlayerHeroWinRateDelta player (name hero))%Z)).
Proof.
  intros Hs.
  destruct (assignSingleHero_cases players d s hero)
    as [[Heq Hall]|(p & player & Heq & Hp & Hfree & Hmax)]; [by left|].
  right. exists p, player. split_and!; [done|done| |done].
  rewrite Heq. cbn [assignments]. by apply assignWithSwap_lookup_slot.
Qed.

Lemma single_hero_goes_to_best_free_player_witness :
  (assignSingleHero [Some alice; Some fan] seated 0 heroA = seated
   /\ forall p, p < length (validPlayersOf [Some alice; Some fan]) ->
        boundToOtherHero seated 0 p)
  \/ (exists p player,
        validPlayersOf [Some alice; Some fan] !! p = Some player
        /\ ~ boundToOtherHero seated 0 p
        /\ assignments (assignSingleHero [Some alice; Some fan] seated 0 heroA) !! 0
           = Some (Some p)
        /\ forall q other,
             validPlayersOf [Some alice; Some fan] !! q = Some other ->
             ~ boundToOtherHero seated 0 q ->
             (getPlayerHeroWinRateDelta other (name heroA)
              <= getPlayerHeroWinRateDelta player (name heroA))%Z
             /\ (q < p -> (getPlayerHeroWinRateDelta other (name heroA)
                           < getPlayerHeroWinRateDelta player (name heroA))%Z)).
Proof.
  apply (single_hero_goes_to_best_free_player [Some alice; Some fan] seated 0 heroA).
  cbn. lia.
Defined.

(** X11. [assignSingleHero] does not change the player of any other slot that
    holds a hero. *)
Theorem single_hero_keeps_other_heroes players d s hero idx :
  s < length (assignments d) -> idx <> s -> picks d !! idx <> Some None ->
  assignments (assignSingleHero players d s hero) !! idx = assignments d !! idx.
Proof.
  intros Hs Hne Hpick.
  destruct (assignSingleHero_cases players d s hero)
    as [[Heq Hall]|(p & player & Heq & Hp & Hfree & Hmax)]; [by rewrite Heq|].
  rewrite Heq. cbn [assignments]. apply assignWithSwap_lookup_other; [done|].
  intros Ha. apply Hfree. by exists idx.
Qed.

Lemma single_hero_keeps_other_heroes_witness :
  assignments (assignSingleHero [Some alice; Some fan] heldByFan 1 heroB) !! 0
  = assignments heldByFan !! 0.
Proof.
  apply (single_hero_keeps_other_heroes [Some alice; Some fan] heldByFan 1 heroB 0);
    [cbn; lia|lia|done].
Defined.

(** X12. [assignSingleHero] keeps the non-null assignments pairwise distinct. *)
Theorem single_hero_keeps_players_distinct players d s hero :
  s < length (assignments d) ->
  NoDup (referenced (assignments d)) ->
  NoDup (referenced (assignments (assignSingleHero players d s hero))).
Proof.
  intros Hs Hnd.
  destruct (assignSingleHero_cases players d s hero)
    as [[Heq Hall]|(p & player & Heq & Hp & Hfree & Hmax)]; [by rewrite Heq|].
  rewrite Heq. cbn [assignments]. by apply assignWithSwap_NoDup.
Qed.

Lemma single_hero_keeps_players_distinct_witness :
  NoDup (referenced (assignments (assignSingleHero [Some alice; Some fan] seated 0 heroA))).
Proof.
  apply (single_hero_keeps_players_distinct [Some alice; Some fan] seated 0 heroA).
  - cbn. lia.
  - by apply (bool_decide_unpack _).
Defined.

(** ** [assignPlayerToHero] *)

(** X13. After [assignPlayerToHero] gives a slot to a player, that slot is the
    only one that references the player, the slots of the other players are
    as before, and the slots that lost the player are no longer flagged
    manual. *)
Theorem manual_assignment_is_exclusive d s p :
  s < length (assignments d) ->
  assignments (assignPlayerToHero d s (Some p)) !! s = Some (Some p)
  /\ (forall i, assignments (assignPlayerToHero d s (Some p)) !! i = Some (Some p) -> i = s)
  /\ (forall i, i <> s -> assignments d !! i <> Some (Some p) ->
        assignments (assignPlayerToHero d s (Some p)) !! i = assignments d !! i
        /\ manualAssignments (assignPlayerToHero d s (Some p)) !! i
           = manualAssignments d !! i)
  /\ (forall i, i <> s -> assignments d !! i = Some (Some p) ->
        assignments (assignPlayerToHero d s (Some p)) !! i = Some None
        /\ manualAssignments (assignPlayerToHero d s (Some p)) !! i <> Some true).
Proof.
  intros Hs. split_and!.
  - rewrite assignPlayerToHero_lookup. rewrite decide_True by done.
    by destruct (lookup_lt_is_Some_2 _ _ Hs) as [v ->].
  - intros i Hi. rewrite assignPlayerToHero_lookup in Hi.
    destruct (decide (i = s)); [done|].
    destruct (assignments d !! i) as [v|]; [|done]. cbn in Hi.
    case_bool_decide as Hv; by simplify_eq.
  - intros i Hne Hi. rewrite assignPlayerToHero_lookup, assignPlayerToHero_flags.
    rewrite !decide_False by done.
    destruct (assignments d !! i) as [v|]; [|done]. cbn.
    rewrite bool_decide_eq_false_2; [done|congruence].
  - intros i Hne Hi. rewrite assignPlayerToHero_lookup, assignPlayerToHero_flags.
    rewrite !decide_False by done. rewrite Hi. cbn.
    rewrite bool_decide_eq_true_2 by done. split; [done|].
    by destruct (manualAssignments d !! i).
Qed.

Lemma manual_assignment_is_exclusive_witness :
  assignments (assignPlayerToHero seated 0 (Some 1)) !! 0 = Some (Some 1)
  /\ (forall i, assignments (assignPlayerToHero seated 0 (Some 1)) !! i = Some (Some 1) ->
        i = 0)
  /\ (forall i, i <> 0 -> assignments seated !! i <> Some (Some 1) ->
        assignments (assignPlayerToHero seated 0 (Some 1)) !! i = assignments seated !! i
        /\ manualAssignments (assignPlayerToHero seated 0 (Some 1)) !! i
           = manualAssignments seated !! i)
  /\ (forall i, i <> 0 -> assignments seated !! i = Some (Some 1) ->
        assignments (assignPlayerToHero seated 0 (Some 1)) !! i = Some None
        /\ manualAssignments (assignPlayerToHero seated 0 (Some 1)) !! i <> Some true).
Proof. apply (manual_assignment_is_exclusive seated 0 1). cbn. lia. Defined.

(** ** [fillEmptySlots] *)

(** X14. [fillEmptySlots] never replaces a player: a slot that references a
    player references the same player afterwards, and the picks, the bans and
    the manual flags are as before. *)
Theorem fill_never_overwrites players d s q :
  assignments d !! s = Some (Some q) ->
  assignments (fillEmptySlots players d) !! s = Some (Some q)
  /\ picks (fillEmptySlots players d) = picks d
  /\ bans (fillEmptySlots players d) = bans d
  /\ manualAssignments (fillEmptySlots players d) = manualAssignments d.
Proof.
  intros Hs. destruct (fillEmptySlots_rest players d) as (Hb & Hp & Hm).
  split_and!; [by apply fillEmptySlots_keeps|done..].
Qed.

Lemma fill_never_overwrites_witness :
  assignments (fillEmptySlots [Some alice; Some bob] manualSet) !! 0 = Some (Some 1)
  /\ picks (fillEmptySlots [Some alice; Some bob] manualSet) = picks manualSet
  /\ bans (fillEmptySlots [Some alice; Some bob] manualSet) = bans manualSet
  /\ manualAssignments (fillEmptySlots [Some alice; Some bob] manualSet)
     = manualAssignments manualSet.
Proof. by apply (fill_never_overwrites [Some alice; Some bob] manualSet 0 1). Defined.

(** X15. When some player has data, [fillEmptySlots] leaves no [null] in the
    slots below the length of the player array. *)
Theorem fill_fills_leading_slots players d s :
  validPlayersOf players <> [] -> length (assignments d) = 5 ->
  s < 5 -> s < length players ->
  exists q, assignments (fillEmptySlots players d) !! s = Some (Some q).
Proof.
  intros Hv Hl H5 Hp. rewrite fillEmptySlots_assignments by done.
  apply fillFold_fills; [|lia|done]. apply elem_of_seq. lia.
Qed.

Lemma fill_fills_leading_slots_witness :
  exists q, assignments (fillEmptySlots [Some alice; Some bob] manualSet) !! 1
            = Some (Some q).
Proof.
  apply (fill_fills_leading_slots [Some alice; Some bob] manualSet 1);
    [done|done|lia|cbn; lia].
Defined.

(** X16. When every entry of the player array holds a player with data,
    [fillEmptySlots] changes nothing after [assignHeroesToPlayers]. *)
Theorem fill_after_resolution_changes_nothing players d :
  Forall (fun p => hasData p = true) players ->
  fillEmptySlots players (assignHeroesToPlayers players d)
  = assignHeroesToPlayers players d.
Proof.
  intros Hall. unfold fillEmptySlots, assignHeroesToPlayers.
  rewrite (validPlayersOf_all players Hall). destruct players as [|pl players]; [done|].
  cbn [bans picks assignments manualAssignments].
  by rewrite (fillFold_thirdPass _ _ Hall), thirdPass_idem.
Qed.

Lemma fill_after_resolution_changes_nothing_witness :
  fillEmptySlots [Some alice; Some bob] (assignHeroesToPlayers [Some alice; Some bob] manualSet)
  = assignHeroesToPlayers [Some alice; Some bob] manualSet.
Proof.
  apply (fill_after_resolution_changes_nothing [Some alice; Some bob] manualSet).
  by repeat constructor.
Defined.

(** ** [quickBan] and [quickPick] *)

Lemma omap_id_insert {A} (l : list (option A)) i x :
  l !! i = Some None -> omap id (<[i := Some x]> l) ≡ₚ x :: omap id l.
Proof.
  revert i. induction l as [|y l IH]; intros i Hi; [done|].
  destruct i as [|i]; cbn in Hi.
  - by injection Hi as ->.
  - cbn. destruct y as [z|]; cbn.
    + rewrite (IH i Hi). apply Permutation_swap.
    + by apply IH.
Qed.

Lemma findIndex_isNull {A} (l : list (option A)) i :
  findIndex (fun _ slot => isNull slot) l = Some i -> l !! i = Some None.
Proof.
  intros H. apply findIndex_Some in H as (x & Hx & Hf & _). by destruct x.
Qed.

Lemma draft_setDraft_same st team d : draft (setDraft st team d) team = d.
Proof. by destruct team. Qed.

Lemma draft_setDraft_other st team d : draft (setDraft st team d) (enemyOf team) = draft st (enemyOf team).
Proof. by destruct team. Qed.

Lemma catalogHasGlobal_setDraft st team d :
  catalogHasGlobal (setDraft st team d) <-> catalogHasGlobal st.
Proof. by destruct team. Qed.

(** The heroes drafted after a change of one side's slots. *)
Lemma draftedHeroes_setDraft st team d h :
  h ∈ draftedHeroes (setDraft st team d)
  <-> h ∈ omap id (bans d) \/ h ∈ omap id (picks d)
      \/ h ∈ omap id (bans (draft st (enemyOf team)))
      \/ h ∈ omap id (picks (draft st (enemyOf team))).
Proof.
  unfold draftedHeroes. destruct team; cbn; rewrite !elem_of_app; tauto.
Qed.

Lemma draftedHeroes_sides st team h :
  h ∈ draftedHeroes st
  <-> h ∈ omap id (bans (draft st team)) \/ h ∈ omap id (picks (draft st team))
      \/ h ∈ omap id (bans (draft st (enemyOf team)))
      \/ h ∈ omap id (picks (draft st (enemyOf team))).
Proof.
  unfold draftedHeroes. destruct team; cbn; rewrite !elem_of_app; tauto.
Qed.

Lemma drafted_not_recommended st side recs h :
  getRecommendations st side = Ret recs -> h ∈ draftedHeroes st ->
  slug h ∉ (slug <$> (rec_hero <$> recs)).
Proof.
  intros Hg Hd Hin. apply drafted_unavailable in Hd.
  apply list_elem_of_fmap in Hin as (h' & Heq & Hin).
  apply list_elem_of_fmap in Hin as (r & -> & Hin).
  destruct (getRecommendations_eligible _ _ _ _ Hg Hin) as (Hnot & _).
  apply Hnot. by rewrite <- Heq.
Qed.

Lemma quickBan_drafted st hero team i h :
  findIndex (fun _ slot => isNull slot) (bans (draft st team)) = Some i ->
  h = hero \/ h ∈ draftedHeroes st -> h ∈ draftedHeroes (quickBan st hero team).
Proof.
  intros Hi Hh. unfold quickBan. rewrite Hi. apply findIndex_isNull in Hi.
  apply draftedHeroes_setDraft. cbn [bans picks].
  rewrite (omap_id_insert _ i hero Hi), elem_of_cons.
  destruct Hh as [->|Hh]; [tauto|].
  apply (draftedHeroes_sides st team) in Hh. tauto.
Qed.

Lemma assignSingleHero_rest players d s hero :
  bans (assignSingleHero players d s hero) = bans d
  /\ picks (assignSingleHero players d s hero) = picks d
  /\ manualAssignments (assignSingleHero players d s hero) = manualAssignments d.
Proof.
  destruct (assignSingleHero_cases players d s hero)
    as [[-> _]|(p & player & -> & _)]; done.
Qed.

(** The slots of the side after a quick pick into slot [i]. *)
Lemma quickPick_draft st hero team i :
  findIndex (fun _ slot => isNull slot) (picks (draft st team)) = Some i ->
  let d := draft st team in
  let d1 := {| bans := bans d; picks := <[i := Some hero]> (picks d);
               assignments := assignments d;
               manualAssignments := manualAssignments d |} in
  draft (quickPick st hero team) team
  = fillEmptySlots (playerStats st team)
      (if negb (default false (manualAssignments d !! i))
       then assignSingleHero (playerStats st team) d1 i hero else d1).
Proof. intros Hi. unfold quickPick. rewrite Hi. cbn zeta. by rewrite draft_setDraft_same. Qed.

Lemma quickPick_slots st hero team i :
  findIndex (fun _ slot => isNull slot) (picks (draft st team)) = Some i ->
  bans (draft (quickPick st hero team) team) = bans (draft st team)
  /\ picks (draft (quickPick st hero team) team) = <[i := Some hero]> (picks (draft st team))
  /\ manualAssignments (draft (quickPick st hero team) team)
     = manualAssignments (draft st team)
  /\ draft (quickPick st hero team) (enemyOf team) = draft st (enemyOf team).
Proof.
  intros Hi. rewrite (quickPick_draft st hero team i Hi). cbn zeta.
  set (d1 := {| bans := bans (draft st team);
                picks := <[i := Some hero]> (picks (draft st team));
                assignments := assignments (draft st team);
                manualAssignments := manualAssignments (draft st team) |}).
  set (d2 := if negb _ then _ else _).
  assert (bans d2 = bans d1 /\ picks d2 = picks d1
          /\ manualAssignments d2 = manualAssignments d1) as (Hb & Hp & Hm).
  { subst d2. destruct (negb _); [apply assignSingleHero_rest|done]. }
  destruct (fillEmptySlots_rest (playerStats st team) d2) as (-> & -> & ->).
  rewrite Hb, Hp, Hm. split_and!; [done..|].
  unfold quickPick. rewrite Hi. by rewrite draft_setDraft_other.
Qed.

Lemma quickPick_drafted st hero team i h :
  findIndex (fun _ slot => isNull slot) (picks (draft st team)) = Some i ->
  h = hero \/ h ∈ draftedHeroes st -> h ∈ draftedHeroes (quickPick st hero team).
Proof.
  intros Hi Hh. destruct (quickPick_slots st hero team i Hi) as (Hb & Hp & _ & Ho).
  apply (draftedHeroes_sides _ team). rewrite Hb, Hp, Ho.
  apply findIndex_isNull in Hi.
  rewrite (omap_id_insert _ i hero Hi), elem_of_cons.
  destruct Hh as [->|Hh]; [tauto|].
  apply (draftedHeroes_sides st team) in Hh. tauto.
Qed.

Lemma catalogHasGlobal_quickPick st hero team :
  catalogHasGlobal (quickPick st hero team) <-> catalogHasGlobal st.
Proof.
  unfold quickPick. destruct (findIndex _ _); [|done]. apply catalogHasGlobal_setDraft.
Qed.

Lemma catalogHasGlobal_quickBan st hero team :
  catalogHasGlobal (quickBan st hero team) <-> catalogHasGlobal st.
Proof.
  unfold quickBan. destruct (findIndex _ _); [|done]. apply catalogHasGlobal_setDraft.
Qed.

(** X17. A quick ban with no [null] ban slot changes nothing. Otherwise
    [getRecommendations] afterwards, for either side, throws only when some
    catalog record has no [global] block and else returns a list with neither
    the banned hero nor a hero drafted before. *)
Theorem quick_ban_takes_hero_out st hero team side :
  match findIndex (fun _ slot => isNull slot) (bans (draft st team)) with
  | None => quickBan st hero team = st
  | Some i =>
    match getRecommendations (quickBan st hero team) side with
    | TypeError => ~ catalogHasGlobal st
    | Ret recs =>
      forall h, h = hero \/ h ∈ draftedHeroes st ->
                slug h ∉ (slug <$> (rec_hero <$> recs))
    end
  end.
Proof.
  destruct (findIndex _ _) as [i|] eqn:Hi; [|by unfold quickBan; rewrite Hi].
  destruct (getRecommendations _ side) as [recs|] eqn:Hg.
  - intros h Hh. apply (drafted_not_recommended _ _ _ _ Hg).
    by apply (quickBan_drafted st hero team i).
  - rewrite <- (catalogHasGlobal_quickBan st hero team).
    by apply (getRecommendations_throws _ side).
Qed.

(** X18. A quick pick with no [null] pick slot changes nothing. Otherwise the
    hero is in the first [null] pick slot and [getRecommendations]
    afterwards, for either side, throws only when some catalog record has no
    [global] block and else returns a list with neither the picked hero nor a
    hero drafted before. *)
Theorem quick_pick_takes_hero_out st hero team side :
  match findIndex (fun _ slot => isNull slot) (picks (draft st team)) with
  | None => quickPick st hero team = st
  | Some i =>
    picks (draft (quickPick st hero team) team) !! i = Some (Some hero)
    /\ match getRecommendations (quickPick st hero team) side with
       | TypeError => ~ catalogHasGlobal st
       | Ret recs =>
         forall h, h = hero \/ h ∈ draftedHeroes st ->
                   slug h ∉ (slug <$> (rec_hero <$> recs))
       end
  end.
Proof.
  destruct (findIndex _ _) as [i|] eqn:Hi; [|by unfold quickPick; rewrite Hi].
  split.
  - destruct (quickPick_slots st hero team i Hi) as (_ & -> & _).
    apply list_lookup_insert_eq. apply findIndex_isNull in Hi.
    by eapply lookup_lt_Some.
  - destruct (getRecommendations _ side) as [recs|] eqn:Hg.
    + intros h Hh. apply (drafted_not_recommended _ _ _ _ Hg).
      by apply (quickPick_drafted st hero team i).
    + rewrite <- (catalogHasGlobal_quickPick st hero team).
      by apply (getRecommendations_throws _ side).
Qed.

(** X19. A quick pick keeps the player of every slot that holds a hero, and
    the player of the slot it fills when that slot is flagged manual. *)
Theorem quick_pick_keeps_assigned_players st hero team idx q :
  length (picks (draft st team)) <= length (assignments (draft st team)) ->
  assignments (draft st team) !! idx = Some (Some q) ->
  picks (draft st team) !! idx <> Some None
  \/ (findIndex (fun _ slot => isNull slot) (picks (draft st team)) = Some idx
      /\ manualAssignments (draft st team) !! idx = Some true) ->
  assignments (draft (quickPick st hero team) team) !! idx = Some (Some q).
Proof.
  intros Hlen Ha Hcase.
  destruct (findIndex (fun _ slot => isNull slot) (picks (draft st team)))
    as [i|] eqn:Hi; [|by unfold quickPick; rewrite Hi].
  rewrite (quickPick_draft st hero team i Hi). cbn zeta.
  apply fillEmptySlots_keeps. pose proof (findIndex_isNull _ _ Hi) as Hnull.
  destruct Hcase as [Hpick|[[= ->] Hm]].
  - assert (idx <> i) as Hne by (intros ->; done).
    destruct (negb _); [|done].
    destruct (assignSingleHero_cases (playerStats st team)
                {| bans := bans (draft st team);
                   picks := <[i := Some hero]> (picks (draft st team));
                   assignments := assignments (draft st team);
                   manualAssignments := manualAssignments (draft st team) |} i hero)
      as [[-> _]|(p & player & -> & _ & Hfree & _)]; [done|].
    cbn [assignments]. rewrite assignWithSwap_lookup_other; [done|done|].
    rewrite Ha. intros [= ->]. apply Hfree. exists idx. cbn [assignments picks].
    by rewrite list_lookup_insert_ne.
  - rewrite Hm. done.
Qed.

Lemma quick_pick_keeps_assigned_players_witness :
  assignments (draft (quickPick stHeld heroB blue) blue) !! 0 = Some (Some 1).
Proof.
  apply (quick_pick_keeps_assigned_players stHeld heroB blue 0 1);
    [cbn; lia|done|by left].
Defined.

(** * Players of a side *)

Lemma playerStats_setDraft st team d side :
  playerStats (setDraft st team d) side = playerStats st side.
Proof. by destruct team, side. Qed.

Lemma playerStats_setPlayerStats st team players :
  playerStats (setPlayerStats st team players) team = players.
Proof. by destruct team. Qed.

Lemma hasBattletag_present tag players :
  existsb (hasBattletag tag) players = true <-> tag ∈ presentBattletags players.
Proof.
  unfold presentBattletags. rewrite existsb_exists, list_elem_of_fmap. split.
  - intros ([p|] & Hin & Hp); [|done]. cbn in Hp. apply String.eqb_eq in Hp.
    exists p. split; [done|]. apply list_elem_of_omap. exists (Some p).
    split; [by apply list_elem_of_In|done].
  - intros (p & -> & Hin). apply list_elem_of_omap in Hin as ([q|] & Hin & Hq); [|done].
    cbn in Hq. injection Hq as ->. exists (Some p). split; [by apply list_elem_of_In|].
    cbn. apply String.eqb_refl.
Qed.

Lemma present_count players :
  length (List.filter (fun p => negb (isNull p)) players)
  = length (presentBattletags players).
Proof.
  unfold presentBattletags. rewrite length_fmap.
  induction players as [|[p|] players IH]; cbn; [done|by rewrite IH|done].
Qed.

Lemma storePlayer_keeps players p i q :
  players !! i = Some (Some q) -> storePlayer players p !! i = Some (Some q).
Proof.
  intros Hi. unfold storePlayer.
  destruct (findIndex _ players) as [slot|] eqn:Hslot.
  - apply findIndex_isNull in Hslot. rewrite list_lookup_insert_ne; [done|].
    intros ->. congruence.
  - rewrite lookup_app_l; [done|]. by eapply lookup_lt_Some.
Qed.

Lemma storePlayer_present players p :
  presentBattletags (storePlayer players p) ≡ₚ battletag p :: presentBattletags players.
Proof.
  unfold storePlayer, presentBattletags.
  destruct (findIndex _ players) as [slot|] eqn:Hslot.
  - apply findIndex_isNull in Hslot. by rewrite (omap_id_insert _ slot p Hslot).
  - rewrite omap_app, fmap_app. cbn. by rewrite Permutation_app_comm.
Qed.


(** ** [addPlayerRow] *)

(** Whether [addPlayerRow] stores the player. *)
Lemma addPlayerRow_roster st team tag response :
  let old := playerStats st team in
  if decide (tag ∈ presentBattletags old \/ 5 <= length (presentBattletags old)
             \/ response = None)
  then addPlayerRow st team tag response = st
  else playerStats (addPlayerRow st team tag response) team
       = storePlayer old {| battletag := tag; data := response |}.
Proof.
  cbn zeta. unfold addPlayerRow.
  destruct (existsb (hasBattletag tag) (playerStats st team)) eqn:Hex.
  { apply hasBattletag_present in Hex. by rewrite decide_True by tauto. }
  assert (tag ∉ presentBattletags (playerStats st team)) as Hnot.
  { intros Hin. apply hasBattletag_present in Hin. congruence. }
  rewrite present_count.
  destruct (Nat.leb_spec 5 (length (presentBattletags (playerStats st team)))) as [Hle|Hlt].
  { by rewrite decide_True by tauto. }
  destruct response as [data|].
  - rewrite decide_False; [|intros [?|[?|?]]; [done|lia|done]].
    by rewrite playerStats_setDraft, playerStats_setPlayerStats.
  - by rewrite decide_True by tauto.
Qed.

(** X20. [addPlayerRow] keeps the battletags of a side distinct and their
    number at five or less, and the players already present keep their
    index. *)
Theorem add_player_keeps_roster_sound st team tag response :
  NoDup (presentBattletags (playerStats st team)) ->
  length (presentBattletags (playerStats st team)) <= 5 ->
  NoDup (presentBattletags (playerStats (addPlayerRow st team tag response) team))
  /\ length (presentBattletags (playerStats (addPlayerRow st team tag response) team)) <= 5
  /\ forall i p, playerStats st team !! i = Some (Some p) ->
       playerStats (addPlayerRow st team tag response) team !! i = Some (Some p).
Proof.
  intros Hnd Hlen. pose proof (addPlayerRow_roster st team tag response) as H.
  cbn zeta in H. destruct (decide _) as [Hno|Hyes].
  - by rewrite H.
  - rewrite H. split_and!.
    + rewrite storePlayer_present. apply NoDup_cons. split; [|done]. cbn. tauto.
    + rewrite storePlayer_present. cbn. lia.
    + intros i p Hi. by apply storePlayer_keeps.
Qed.

Lemma add_player_keeps_roster_sound_witness :
  NoDup (presentBattletags (playerStats (addPlayerRow stHeld blue "bob#2" (Some noStats)) blue))
  /\ length (presentBattletags
               (playerStats (addPlayerRow stHeld blue "bob#2" (Some noStats)) blue)) <= 5
  /\ forall i p, playerStats stHeld blue !! i = Some (Some p) ->
       playerStats (addPlayerRow stHeld blue "bob#2" (Some noStats)) blue !! i
       = Some (Some p).
Proof.
  apply (add_player_keeps_roster_sound stHeld blue "bob#2" (Some noStats)).
  - by apply (bool_decide_unpack _).
  - cbn. lia.
Defined.

(** ** [removePlayerRow] *)

Lemma firstUnreferenced_hasData players a s f :
  firstUnreferenced players a s = Some f ->
  hasData (default None (players !! f)) = true.
Proof.
  unfold firstUnreferenced. intros H. apply find_some in H as [_ H].
  by apply andb_true_iff in H as [H _].
Qed.

(** [fillEmptySlots] references an entry without data only through the
    sequential fallback, which gives a slot its own number. *)
Lemma fillFold_no_data players index l a :
  hasData (default None (players !! index)) = false ->
  (forall slot, a !! slot = Some (Some index) -> slot = index) ->
  forall slot, foldl (fillStep players) a l !! slot = Some (Some index) -> slot = index.
Proof.
  intros Hno. revert a. induction l as [|s l IH]; intros a Ha; cbn [foldl]; [done|].
  apply IH. intros slot. unfold fillStep.
  case_bool_decide as Hnull; cbn; [|by apply Ha].
  case_bool_decide as Hlt; cbn; [|by apply Ha].
  destruct (firstUnreferenced players a s) as [f|] eqn:Hf.
  - apply firstUnreferenced_hasData in Hf.
    destruct (decide (slot = s)) as [->|Hne].
    + rewrite list_lookup_insert_eq by (by eapply lookup_lt_Some).
      intros [= ->]. congruence.
    + rewrite list_lookup_insert_ne by done. apply Ha.
  - destruct (decide (slot = s)) as [->|Hne].
    + rewrite list_lookup_insert_eq by (by eapply lookup_lt_Some). by intros [= ->].
    + rewrite list_lookup_insert_ne by done. apply Ha.
Qed.

Lemma removePlayerRow_found st team tag index :
  findIndex (fun _ p => hasBattletag tag p) (playerStats st team) = Some index ->
  let a := assignments (draft st team) in
  let m := manualAssignments (draft st team) in
  let r := foldl (clearStep index) (a, m) (imap pair a) in
  let players := <[index := None]> (playerStats st team) in
  playerStats (removePlayerRow st team tag) team = players
  /\ draft (removePlayerRow st team tag) team
     = fillEmptySlots players
         {| bans := bans (draft st team); picks := picks (draft st team);
            assignments := r.1; manualAssignments := r.2 |}.
Proof.
  intros Hi. cbn zeta. unfold removePlayerRow. rewrite Hi.
  destruct (foldl _ _ _) as [a m]. cbn [fst snd].
  by rewrite playerStats_setDraft, playerStats_setPlayerStats, draft_setDraft_same.
Qed.

(** X21. [removePlayerRow] of a battletag that no player has changes nothing.
    Otherwise the slots of the other players keep them, the slots that
    referenced the removed player are no longer flagged manual, and afterwards
    the index of the removed player is referenced at most by the slot of the
    same number. *)
Theorem remove_player_releases_slots st team tag :
  match findIndex (fun _ p => hasBattletag tag p) (playerStats st team) with
  | None => removePlayerRow st team tag = st
  | Some index =>
    (forall slot q, q <> index ->
       assignments (draft st team) !! slot = Some (Some q) ->
       assignments (draft (removePlayerRow st team tag) team) !! slot = Some (Some q))
    /\ (forall slot,
          assignments (draft st team) !! slot = Some (Some index) ->
          manualAssignments (draft (removePlayerRow st team tag) team) !! slot <> Some true)
    /\ (forall slot,
          assignments (draft (removePlayerRow st team tag) team) !! slot = Some (Some index) ->
          slot = index)
  end.
Proof.
  destruct (findIndex _ _) as [index|] eqn:Hi; [|by unfold removePlayerRow; rewrite Hi].
  destruct (removePlayerRow_found st team tag index Hi) as [_ ->]. cbn zeta.
  pose proof (fun i => clearFold_lookup
                (fun _ v => bool_decide (v = Some index))
                (clearStep index) (fun am i v => eq_refl)
                (assignments (draft st team)) (manualAssignments (draft st team)) i) as Hfold.
  cbn zeta in Hfold. destruct (foldl _ _ _) as [a m]. cbn [fst snd] in *.
  split_and!.
  - intros slot q Hq Hs. apply fillEmptySlots_keeps. cbn [assignments].
    destruct (Hfold slot) as [-> _]. rewrite Hs. cbn.
    rewrite bool_decide_eq_false_2; [done|congruence].
  - intros slot Hs.
    destruct (fillEmptySlots_rest (<[index := None]> (playerStats st team))
                {| bans := bans (draft st team); picks := picks (draft st team);
                   assignments := a; manualAssignments := m |}) as (_ & _ & ->).
    cbn [manualAssignments]. destruct (Hfold slot) as [_ ->]. rewrite Hs.
    rewrite bool_decide_eq_true_2 by done.
    by destruct (manualAssignments (draft st team) !! slot).
  - unfold fillEmptySlots. set (players := <[index := None]> (playerStats st team)).
    assert (forall slot, a !! slot = Some (Some index) -> slot = index) as Hclear.
    { intros slot. destruct (Hfold slot) as [-> _].
      destruct (assignments (draft st team) !! slot) as [v|]; [|done]. cbn.
      case_bool_decide as Hv; [done|]. intros [= ->]. done. }
    destruct (validPlayersOf players); [done|]. cbn [assignments].
    apply fillFold_no_data; [|done]. subst players.
    apply findIndex_Some in Hi as (x & Hx & _).
    rewrite list_lookup_insert_eq by (by eapply lookup_lt_Some). done.
Qed.

(** X22. When the battletags of a side are distinct, [removePlayerRow] leaves
    no player with the removed battletag, and the other players keep their
    index. *)
Theorem remove_player_forgets_battletag st team tag :
  NoDup (presentBattletags (playerStats st team)) ->
  (tag ∉ presentBattletags (playerStats (removePlayerRow st team tag) team))
  /\ forall i p, battletag p <> tag -> playerStats st team !! i = Some (Some p) ->
       playerStats (removePlayerRow st team tag) team !! i = Some (Some p).
Proof.
  intros Hnd.
  destruct (findIndex (fun _ p => hasBattletag tag p) (playerStats st team))
    as [index|] eqn:Hi.
  - destruct (removePlayerRow_found st team tag index Hi) as [-> _].
    apply findIndex_Some in Hi as ([x|] & Hx & Hf & _); [|done].
    cbn in Hf. apply String.eqb_eq in Hf.
    assert (playerStats st team = <[index := Some x]> (<[index := None]> (playerStats st team)))
      as Hput.
    { rewrite list_insert_insert_eq. by rewrite list_insert_id. }
    split.
    + rewrite Hput in Hnd. unfold presentBattletags in Hnd |- *.
      rewrite omap_id_insert in Hnd.
      * cbn in Hnd. apply NoDup_cons in Hnd as [Hnd _]. by rewrite <- Hf.
      * apply list_lookup_insert_eq. by eapply lookup_lt_Some.
    + intros i p Hp Hl. rewrite list_lookup_insert_ne; [done|].
      intros ->. congruence.
  - unfold removePlayerRow. rewrite Hi. split; [|done].
    intros Hin. apply hasBattletag_present, existsb_exists in Hin as (p & Hin & Hp).
    apply list_elem_of_In, list_elem_of_lookup in Hin as [i Hl].
    pose proof (findIndex_None _ _ Hi i p Hl) as Hno. cbn in Hno. congruence.
Qed.

Lemma remove_player_forgets_battletag_witness :
  ("fan#1"%string ∉ presentBattletags (playerStats (removePlayerRow stHeld blue "fan#1") blue))
  /\ forall i p, battletag p <> "fan#1"%string -> playerStats stHeld blue !! i = Some (Some p) ->
       playerStats (removePlayerRow stHeld blue "fan#1") blue !! i = Some (Some p).
Proof.
  apply (remove_player_forgets_battletag stHeld blue "fan#1").
  by apply (bool_decide_unpack _).
Defined.

(** ** Recent teams *)






Section RecentTeamsFacts.
Variables (trim toLowerCase : string -> string).



(** X24. [saveCurrentTeamToRecent] keeps the names of the saved teams distinct
    up to letter case, and the list at twenty entries or less. *)
Theorem saved_names_stay_distinct recentTeams players teamName overwrite now :
  NoDup ((fun t => toLowerCase (team_name t)) <$> recentTeams) ->
  length recentTeams <= 20 ->
  NoDup ((fun t => toLowerCase (team_name t))
           <$> saveCurrentTeamToRecent trim toLowerCase recentTeams players
                 teamName overwrite now)
  /\ length (saveCurrentTeamToRecent trim toLowerCase recentTeams players
               teamName overwrite now) <= 20.
Proof.
  intros Hnd Hlen. unfold saveCurrentTeamToRecent.
  destruct (length (omap id players) =? 0); [done|].
  destruct (_ || _); [done|].
  set (key := fun t => toLowerCase (team_name t)) in *.
  set (saved := {| team_name := trim teamName;
                   battletags := presentBattletags players; timestamp := now |}).
  assert (forall l : list SavedTeam, length (take 20 l) <= 20) as Htake.
  { intros l. rewrite length_take. lia. }
  assert (forall l, NoDup (key <$> l) -> NoDup (key <$> take 20 l)) as Hsub.
  { intros l Hl. apply (sublist_NoDup _ _ Hl), fmap_sublist, sublist_take. }
  destruct (findIndex _ recentTeams) as [i|] eqn:Hi.
  - destruct overwrite; [|done]. split; [|apply Htake].
    apply Hsub. cbn. apply NoDup_cons. split.
    + apply findIndex_Some in Hi as (t & Ht & Hf & _). apply String.eqb_eq in Hf.
      intros Hin. apply list_elem_of_fmap in Hin as (u & Hu & Hin).
      apply list_elem_of_lookup in Hin as [j Hj].
      assert (exists j', j' <> i /\ recentTeams !! j' = Some u) as (j' & Hne & Hj').
      { destruct (decide (j < i)).
        - exists j. split; [lia|]. by rewrite list_lookup_delete_lt in Hj.
        - exists (S j). split; [lia|]. by rewrite list_lookup_delete_ge in Hj by lia. }
      apply Hne. apply (NoDup_lookup _ j' i (key u) Hnd).
      * by rewrite list_lookup_fmap, Hj'.
      * rewrite list_lookup_fmap, Ht. cbn. f_equal.
        etrans; [exact Hf|exact Hu].
    + apply (sublist_NoDup _ _ Hnd), fmap_sublist, sublist_delete.
  - split; [|apply Htake]. apply Hsub. cbn. apply NoDup_cons. split; [|done].
    intros Hin. apply list_elem_of_fmap in Hin as (u & Hu & Hin).
    apply list_elem_of_lookup in Hin as [j Hj].
    pose proof (findIndex_None _ _ Hi j u Hj) as Hno. cbn in Hno.
    apply String.eqb_neq in Hno. apply Hno. symmetry. exact Hu.
Qed.
End RecentTeamsFacts.


Lemma saved_names_stay_distinct_witness :
  NoDup ((fun t => id (team_name t))
           <$> saveCurrentTeamToRecent id id [mkSavedTeam "duo" ["a#1"%string] 1]
                 [Some alice] "duo" true 7)
  /\ length (saveCurrentTeamToRecent id id [mkSavedTeam "duo" ["a#1"%string] 1]
               [Some alice] "duo" true 7) <= 20.
Proof.
  apply (saved_names_stay_distinct id id [mkSavedTeam "duo" ["a#1"%string] 1]
           [Some alice] "duo" true 7).
  - by apply (bool_decide_unpack _).
  - cbn. lia.
Defined.

Local Open Scope Z_scope.

(** * The player endpoint and the hero cards *)

(** ** The filter of the endpoint *)

Lemma keepsHero_spec stats :
  keepsHero stats = true <-> exists g, games_played stats = Some g /\ 10 <= g.
Proof.
  unfold keepsHero. destruct (games_played stats) as [g|].
  - rewrite andb_true_iff, negb_true_iff, Z.eqb_neq, Z.leb_le. split.
    + intros [_ H]. eauto.
    + intros (g' & [= <-] & H). lia.
  - split; [done|]. by intros (g & ? & _).
Qed.

(** The bucket that the endpoint returns for a game type. *)
Lemma filterHeroData_lookup heroData gameType :
  filterHeroData heroData !! gameType
  = if decide (gameType ∈ allowedGameTypes)
    then bucket ← heroData !! gameType;
         let filteredHeroes := filter (fun kv => keepsHero (snd kv) = true) bucket in
         if decide (filteredHeroes = ∅) then None else Some filteredHeroes
    else None.
Proof.
  unfold filterHeroData, allowedGameTypes. cbn [foldl]. unfold filterStep.
  destruct (decide (gameType = "Quick Match"%string)) as [->|Hq].
  - rewrite decide_True by set_solver.
    destruct (heroData !! "Quick Match"%string) as [qm|]; cbn;
      destruct (heroData !! "Storm League"%string) as [sl|]; cbn;
      repeat case_decide; rewrite ?lookup_insert_ne, ?lookup_insert_eq, ?lookup_empty by done;
      done.
  - destruct (decide (gameType = "Storm League"%string)) as [->|Hs].
    + rewrite decide_True by set_solver.
      destruct (heroData !! "Quick Match"%string) as [qm|]; cbn;
        destruct (heroData !! "Storm League"%string) as [sl|]; cbn;
        repeat case_decide; rewrite ?lookup_insert_eq, ?lookup_insert_ne, ?lookup_empty by done;
        done.
    + rewrite decide_False
        by (unfold allowedGameTypes; rewrite !elem_of_cons, elem_of_nil; tauto).
      destruct (heroData !! "Quick Match"%string) as [qm|]; cbn;
        destruct (heroData !! "Storm League"%string) as [sl|]; cbn;
        repeat case_decide; rewrite ?lookup_insert_ne, ?lookup_empty by done; done.
Qed.

(** The statistics that the endpoint returns for a hero in a game type. *)
Lemma filterHeroData_stats heroData gameType h :
  (filterHeroData heroData !! gameType) ≫= (.!! h)
  = if decide (gameType ∈ allowedGameTypes)
    then stats ← (heroData !! gameType) ≫= (.!! h);
         if keepsHero stats then Some stats else None
    else None.
Proof.
  rewrite filterHeroData_lookup. case_decide; [|done].
  destruct (heroData !! gameType) as [bucket|]; [|done]. cbn.
  case_decide as He.
  - cbn. destruct (bucket !! h) as [stats|] eqn:Hh; [|done]. cbn.
    destruct (keepsHero stats) eqn:Hk; [|done].
    assert (filter (fun kv => keepsHero (snd kv) = true) bucket !! h = Some stats) as Hin.
    { by apply map_lookup_filter_Some. }
    rewrite He, lookup_empty in Hin. done.
  - cbn. rewrite map_lookup_filter. destruct (bucket !! h) as [stats|]; [|done]. cbn.
    destruct (keepsHero stats) eqn:Hk.
    + by rewrite option_guard_True.
    + rewrite option_guard_False; [done|]. cbn. congruence.
Qed.

Lemma qualifying_filter heroData h gameType :
  gameType ∈ gameTypes ->
  qualifying (filterHeroData heroData) h gameType = qualifying heroData h gameType.
Proof.
  intros Hgt. unfold qualifying.
  pose proof (filterHeroData_stats heroData gameType h) as Hs.
  rewrite decide_True in Hs by done.
  destruct (filterHeroData heroData !! gameType) as [fb|] eqn:Hf;
    destruct (heroData !! gameType) as [bucket|] eqn:Hb; cbn in Hs |- *.
  - destruct (bucket !! h) as [stats|]; cbn in Hs |- *; [|by rewrite Hs].
    destruct (keepsHero stats) eqn:Hk; rewrite Hs; cbn; [done|].
    unfold keepsHero in Hk. unfold orDefault.
    destruct (games_played stats) as [g|]; [|done].
    destruct (Z.eqb_spec g 0); [done|]. cbn in Hk.
    destruct (Z.leb_spec 10 g); [done|]. destruct (Z.leb_spec 25 g); [lia|done].
  - by rewrite Hs.
  - destruct (bucket !! h) as [stats|]; cbn in Hs |- *; [|done].
    destruct (keepsHero stats) eqn:Hk; [done|].
    unfold keepsHero in Hk. unfold orDefault.
    destruct (games_played stats) as [g|]; [|done].
    destruct (Z.eqb_spec g 0); [done|]. cbn in Hk.
    destruct (Z.leb_spec 10 g); [done|]. destruct (Z.leb_spec 25 g); [lia|done].
  - done.
Qed.

(** X25. The endpoint returns buckets for Quick Match and Storm League only,
    never an empty one, and in them exactly the heroes of the upstream answer
    that have ten games or more, with their statistics unchanged. *)
Theorem endpoint_keeps_heroes_with_ten_games heroData gameType :
  (forall bucket, filterHeroData heroData !! gameType = Some bucket ->
     gameType ∈ allowedGameTypes /\ bucket <> ∅)
  /\ (forall h stats,
        (filterHeroData heroData !! gameType) ≫= (.!! h) = Some stats
        <-> gameType ∈ allowedGameTypes
            /\ (heroData !! gameType) ≫= (.!! h) = Some stats
            /\ exists g, games_played stats = Some g /\ 10 <= g).
Proof.
  split.
  - intros bucket. rewrite filterHeroData_lookup. case_decide; [|done].
    destruct (heroData !! gameType) as [raw|]; [|done]. cbn.
    case_decide; [done|]. by intros [= <-].
  - intros h stats. rewrite filterHeroData_stats, <- keepsHero_spec.
    case_decide as Hgt; [|by intuition].
    destruct ((heroData !! gameType) ≫= (.!! h)) as [s|]; cbn.
    + destruct (keepsHero s) eqn:Hk; split.
      * intros [= ->]. done.
      * by intros (_ & [= ->] & _).
      * done.
      * intros (_ & [= ->] & Hk'). congruence.
    + split; [done|]. by intros (_ & ? & _).
Qed.

(** X26. The filter of the endpoint changes no delta that the client computes:
    [getPlayerHeroWinRateDelta] gives the same value on the filtered
    statistics as on the upstream ones. *)
Theorem endpoint_filter_keeps_deltas tag heroData h :
  getPlayerHeroWinRateDelta
    (Some {| battletag := tag; data := Some (filterHeroData heroData) |}) h
  = getPlayerHeroWinRateDelta (Some {| battletag := tag; data := Some heroData |}) h.
Proof.
  rewrite (getPlayerHeroWinRateDelta_buckets _ (filterHeroData heroData)) by done.
  rewrite (getPlayerHeroWinRateDelta_buckets _ heroData) by done.
  rewrite !qualifying_filter; [done|unfold gameTypes; set_solver..].
Qed.

(** ** The hero cards *)

Lemma processGameType_lookup heroMap gameTypeData gameTypeName h :
  processGameType heroMap gameTypeData gameTypeName !! h
  = match gameTypeData !! h, heroMap !! h with
    | Some s, Some e =>
      if moreGames (games_played s) (card_games e)
      then Some (cardOf s gameTypeName) else Some e
    | Some s, None => Some (cardOf s gameTypeName)
    | None, existing => existing
    end.
Proof.
  unfold processGameType. rewrite lookup_merge.
  destruct (heroMap !! h), (gameTypeData !! h); done.
Qed.

Lemma heroMapOf_lookup playerData h :
  heroMapOf playerData !! h
  = match (playerData !! "Quick Match"%string) ≫= (.!! h),
          (playerData !! "Storm League"%string) ≫= (.!! h) with
    | Some q, Some s =>
      if moreGames (games_played s) (games_played q)
      then Some (cardOf s "SL") else Some (cardOf q "QM")
    | Some q, None => Some (cardOf q "QM")
    | None, Some s => Some (cardOf s "SL")
    | None, None => None
    end.
Proof.
  unfold heroMapOf. cbn zeta. rewrite !processGameType_lookup, lookup_empty.
  destruct (playerData !! "Quick Match"%string) as [qm|]; cbn;
    destruct (playerData !! "Storm League"%string) as [sl|]; cbn;
    rewrite ?lookup_empty;
    repeat (match goal with |- context [ ?m !! h ] => destruct (m !! h) end); done.
Qed.

Lemma qualifying_stats d h gameType :
  qualifying d h gameType
  = stats ← (d !! gameType) ≫= (.!! h);
    if 25 <=? orDefault (games_played stats) 0
    then Some (orDefault (games_played stats) 0,
               cap5 (orDefault (hs_win_rate stats) (pct 50) - pct 50))
    else None.
Proof. unfold qualifying. by destruct (d !! gameType). Qed.

(** X27. A card of a hero with 25 games or more shows the delta that the
    scoring uses for the player and the hero. *)
Theorem card_shows_the_scoring_delta tag playerData h c :
  heroMapOf playerData !! h = Some c -> hasMinGames c = true ->
  card_delta c
  = getPlayerHeroWinRateDelta (Some {| battletag := tag; data := Some playerData |}) h.
Proof.
  intros Hc Hmin. rewrite (getPlayerHeroWinRateDelta_buckets _ playerData) by done.
  rewrite heroMapOf_lookup in Hc. rewrite !qualifying_stats.
  assert (forall s name, hasMinGames (cardOf s name) = true ->
            (25 <=? orDefault (games_played s) 0) = true
            /\ games_played s = Some (orDefault (games_played s) 0)) as Hcard.
  { intros s name. unfold hasMinGames, cardOf, orDefault. cbn.
    destruct (games_played s) as [g|]; [|done]. intros Hg. apply Z.leb_le in Hg.
    destruct (Z.eqb_spec g 0); [lia|]. split; [by apply Z.leb_le|done]. }
  assert (forall s, (25 <=? orDefault (games_played s) 0) = true ->
            games_played s = Some (orDefault (games_played s) 0)) as Hgames.
  { intros s. unfold orDefault. destruct (games_played s) as [g|]; [|done].
    destruct (Z.eqb_spec g 0); [done|done]. }
  destruct ((playerData !! "Quick Match"%string) ≫= (.!! h)) as [q|];
    destruct ((playerData !! "Storm League"%string) ≫= (.!! h)) as [s|]; cbn in Hc |- *.
  - destruct (moreGames (games_played s) (games_played q)) eqn:Hmore;
      injection Hc as <-; destruct (Hcard _ _ Hmin) as [H25 Hg]; rewrite H25.
    + destruct (25 <=? orDefault (games_played q) 0) eqn:Hq; [|done].
      rewrite Hg, (Hgames q Hq) in Hmore. cbn in Hmore. by rewrite Hmore.
    + destruct (25 <=? orDefault (games_played s) 0) eqn:Hs; [|done].
      rewrite Hg, (Hgames s Hs) in Hmore. cbn in Hmore. by rewrite Hmore.
  - injection Hc as <-. destruct (Hcard _ _ Hmin) as [-> _]. done.
  - injection Hc as <-. destruct (Hcard _ _ Hmin) as [-> _]. done.
  - done.
Qed.

Lemma card_shows_the_scoring_delta_witness :
  card_delta (cardOf (mkHeroStats (Some 40) (Some 4500)) "SL")
  = getPlayerHeroWinRateDelta (Some {| battletag := "vet#3"; data := Some ranked |}) "A".
Proof.
  apply (card_shows_the_scoring_delta "vet#3" ranked "A"
           (cardOf (mkHeroStats (Some 40) (Some 4500)) "SL")); reflexivity.
Defined.

(** * The debug table *)

Lemma insertRow_perm r l : insertRow r l ≡ₚ r :: l.
Proof.
  induction l as [|x l IH]; simpl; [done|].
  case_match; [|done]. rewrite IH. apply Permutation_swap.
Qed.

Lemma sortRows_perm l : sortRows l ≡ₚ l.
Proof.
  induction l as [|x l IH]; simpl; [done|].
  fold (sortRows l). by rewrite insertRow_perm, IH.
Qed.

Lemma insertRow_hd r x l :
  rowsDescending x r ->
  HdRel rowsDescending x l ->
  HdRel rowsDescending x (insertRow r l).
Proof.
  intros Hxr Hhd. destruct l as [|y l]; simpl; [by constructor|].
  case_match; constructor; [by inversion Hhd|done].
Qed.

Lemma insertRow_sorted r l :
  Sorted rowsDescending l ->
  Sorted rowsDescending (insertRow r l).
Proof.
  induction 1 as [|x l Hs IH Hhd]; simpl; [by repeat constructor|].
  destruct (Z.ltb_spec (dr_expectedWinRate r) (dr_expectedWinRate x)).
  - constructor; [done|]. apply insertRow_hd; [|done]. unfold rowsDescending. lia.
  - constructor; [by constructor|]. constructor. unfold rowsDescending. lia.
Qed.

Lemma sortRows_sorted l :
  StronglySorted rowsDescending (sortRows l).
Proof.
  apply Sorted_StronglySorted.
  - intros a b c. unfold rowsDescending. lia.
  - induction l as [|x l IH]; simpl; [constructor|]. by apply insertRow_sorted.
Qed.

Lemma debugFold_Ret st team hs acc rows :
  foldE (debugStep st team) acc hs = Ret rows ->
  exists new, rows = acc ++ new /\ dr_hero <$> new = hs /\ Forall (rowOf st team) new.
Proof.
  revert acc. induction hs as [|hero hs IH]; intros acc; cbn [foldE].
  - intros [= <-]. exists []. by rewrite app_nil_r.
  - intros H. apply bindE_Ret in H as (acc' & Hstep & H).
    apply IH in H as (new & -> & Hh & Hall). clear IH.
    unfold debugStep in Hstep. apply bindE_Ret in Hstep as (sc & Hsc & [= <-]).
    eexists (_ :: new). split; [by rewrite <- app_assoc|]. split; [by cbn; rewrite Hh|].
    constructor; [|done]. exists sc. cbn. split_and!; try done.
    apply bool_decide_eq_true.
Qed.

Lemma debugFold_returns st team hs acc :
  (forall hero, hero ∈ hs -> exists sc, calculateHeroScore st (name hero) team = Ret sc) ->
  exists rows, foldE (debugStep st team) acc hs = Ret rows.
Proof.
  revert acc. induction hs as [|hero hs IH]; intros acc Hall; cbn [foldE]; [eauto|].
  assert (exists acc', debugStep st team acc hero = Ret acc') as [acc' ->].
  { destruct (Hall hero) as [sc Hsc]; [by left|]. unfold debugStep. rewrite Hsc. cbn. eauto. }
  cbn. apply IH. intros h Hh. apply Hall. by right.
Qed.

Lemma generateDebugData_throws st team :
  generateDebugData st team = TypeError -> ~ catalogHasGlobal st.
Proof.
  intros H Hcat. unfold generateDebugData in H.
  destruct (debugFold_returns st team (heroes st) []) as [rows Hrows].
  { intros hero _. by apply calculateHeroScore_total. }
  by rewrite Hrows in H.
Qed.

Lemma generateDebugData_Ret st team rows :
  generateDebugData st team = Ret rows ->
  dr_hero <$> rows ≡ₚ heroes st /\ Forall (rowOf st team) rows.
Proof.
  unfold generateDebugData. intros H. apply bindE_Ret in H as (unsorted & Hf & [= <-]).
  apply debugFold_Ret in Hf as (new & -> & Hh & Hall). cbn in *.
  split.
  - by rewrite sortRows_perm, Hh.
  - rewrite Forall_forall in Hall |- *. intros row Hrow. apply Hall.
    by rewrite sortRows_perm in Hrow.
Qed.

(** X28. [generateDebugData] throws only when some catalog record has no
    [global] block; otherwise it returns one row per hero of the hero list,
    drafted or not, by decreasing expected win rate, and each row carries the
    score that [calculateHeroScore] gives its hero. *)
Theorem debug_table_has_a_row_per_hero st team :
  match generateDebugData st team with
  | TypeError => ~ catalogHasGlobal st
  | Ret rows =>
    dr_hero <$> rows ≡ₚ heroes st
    /\ StronglySorted rowsDescending rows
    /\ Forall (rowOf st team) rows
  end.
Proof.
  destruct (generateDebugData st team) as [rows|] eqn:Hg;
    [|by apply (generateDebugData_throws st team)].
  destruct (generateDebugData_Ret st team rows Hg) as [Hperm Hall].
  split_and!; [done| |done].
  unfold generateDebugData in Hg. apply bindE_Ret in Hg as (unsorted & _ & [= <-]).
  apply sortRows_sorted.
Qed.

Lemma recommendFold_returns st team hs acc :
  (forall hero, hero ∈ hs -> exists sc, calculateHeroScore st (name hero) team = Ret sc) ->
  exists recs, foldE (recommendStep st team) acc hs = Ret recs.
Proof.
  revert acc. induction hs as [|hero hs IH]; intros acc Hall; cbn [foldE]; [eauto|].
  assert (exists acc', recommendStep st team acc hero = Ret acc') as [acc' ->].
  { unfold recommendStep. repeat case_match; eauto.
    destruct (Hall hero) as [sc ->]; [by left|]. simpl. case_match; eauto. }
  simpl. apply IH. intros h Hh. apply Hall. by right.
Qed.

(** X29. Whenever [generateDebugData] returns, [getRecommendations] returns
    too, and every recommendation is a row of the table: the row of the same
    hero has the same total and expected win rate and is not flagged
    unavailable. *)
Theorem recommendations_are_debug_rows st team :
  match generateDebugData st team with
  | TypeError => ~ catalogHasGlobal st
  | Ret rows =>
    exists recs, getRecommendations st team = Ret recs
      /\ forall r, r ∈ recs ->
           exists row, row ∈ rows /\ dr_hero row = rec_hero r
             /\ dr_total row = total (rec_score r)
             /\ dr_expectedWinRate row = rec_expectedWinRate r
             /\ dr_unavailable row = false
  end.
Proof.
  destruct (generateDebugData st team) as [rows|] eqn:Hg;
    [|by apply (generateDebugData_throws st team)].
  destruct (generateDebugData_Ret st team rows Hg) as [Hperm Hall].
  rewrite Forall_forall in Hall.
  assert (forall hero, hero ∈ heroes st ->
            exists row, row ∈ rows /\ dr_hero row = hero) as Hrow.
  { intros hero Hin. rewrite <- Hperm in Hin.
    apply list_elem_of_fmap in Hin as (row & -> & Hin). eauto. }
  assert (exists recs, getRecommendations st team = Ret recs) as [recs Hrecs].
  { unfold getRecommendations. case_match; [eauto|].
    destruct (recommendFold_returns st team (heroes st) []) as [recs ->]; [|cbn; eauto].
    intros hero Hin. destruct (Hrow hero Hin) as (row & Hr & <-).
    destruct (Hall row Hr) as (sc & Hsc & _). eauto. }
  exists recs. split; [done|]. intros r Hr.
  destruct (getRecommendations_eligible _ _ _ _ Hrecs Hr) as (Hav & _ & Hsc & _).
  apply getRecommendations_Ret in Hrecs as (unsorted & -> & Hsub & _).
  rewrite sortDesc_perm in Hr.
  assert (rec_hero r ∈ heroes st) as Hin.
  { apply (elem_of_sublist (rec_hero <$> unsorted)); [|done]. by apply list_elem_of_fmap_2. }
  destruct (Hrow _ Hin) as (row & Hrin & Hhero). exists row.
  destruct (Hall row Hrin) as (sc & Hsc' & _ & Htot & Hexp & _ & Hun).
  rewrite Hhero in Hsc', Hun. rewrite Hsc in Hsc'. injection Hsc' as <-.
  split_and!; [done..|]. destruct (dr_unavailable row); [|done].
  exfalso. apply Hav. by apply Hun.
Qed.

Lemma individualFold_elem h acc players :
  let f := fun (playerDeltas : list (string * Z)) (player : option Player) =>
             match player with
             | Some p =>
               if hasData player
               then playerDeltas ++ [(battletag p, getPlayerHeroWinRateDelta player h)]
               else playerDeltas
             | None => playerDeltas
             end in
  (forall x, x ∈ acc -> x ∈ foldl f acc players)
  /\ (forall player, player ∈ players -> hasData player = true ->
        exists tag, (tag, getPlayerHeroWinRateDelta player h) ∈ foldl f acc players).
Proof.
  intros f. revert acc. induction players as [|q players IH]; intros acc; cbn [foldl].
  - split; [done|]. intros player Hin. by apply elem_of_nil in Hin.
  - destruct (IH (f acc q)) as [Hacc Hnew]. split.
    + intros x Hx. apply Hacc. unfold f. destruct q as [p|]; [|done].
      destruct (hasData (Some p)); [|done]. apply elem_of_app. by left.
    + intros player Hin Hd. apply elem_of_cons in Hin as [->|Hin]; [|by apply Hnew].
      destruct q as [p|]; [|done]. exists (battletag p). apply Hacc.
      unfold f. rewrite Hd. apply elem_of_app. right. by left.
Qed.

(** X30. In every row of the debug table that has a breakdown, the
    [playerDelta] component is 0 or the score of one of the players listed in
    the row. *)
Theorem debug_row_explains_player_delta st team :
  match generateDebugData st team with
  | TypeError => ~ catalogHasGlobal st
  | Ret rows =>
    forall row b, row ∈ rows -> dr_breakdown row = Some b ->
      bd_playerDelta b = 0
      \/ exists tag, (tag, bd_playerDelta b) ∈ dr_playerScores row
  end.
Proof.
  destruct (generateDebugData st team) as [rows|] eqn:Hg;
    [|by apply (generateDebugData_throws st team)].
  destruct (generateDebugData_Ret st team rows Hg) as [_ Hall].
  rewrite Forall_forall in Hall. intros row b Hrow Hb.
  destruct (Hall row Hrow) as (sc & Hsc & Hbd & _ & _ & Hps & _).
  rewrite Hb in Hbd. rewrite Hps.
  destruct (heroesData st !! name (dr_hero row)) as [heroData|] eqn:Hh.
  - destruct (calculateHeroScore_present _ _ _ _ _ Hh Hsc) as (m & mt & _ & Hbr & _).
    cbn zeta in Hbr. rewrite <- Hbd in Hbr. injection Hbr as ->. cbn [bd_playerDelta].
    destruct (getPlayerWinRateDelta_max st (name (dr_hero row)) team) as [_ Hmax].
    cbn zeta in Hmax. destruct Hmax as [?|(i & player & Hfree & Heq)]; [by left|right].
    destruct Hfree as (Hl & Hd & _). rewrite <- Heq.
    apply (individualFold_elem (name (dr_hero row)) [] (playerStats st team));
      [by eapply list_elem_of_lookup_2|done].
  - rewrite (calculateHeroScore_absent _ _ _ Hh) in Hsc. injection Hsc as <-. done.
Qed.
